(** * The [openedxevents] Sphinx directive of code-annotations

    A shallow embedding of
    [code_annotations/contrib/sphinx/extensions/openedx_events.py]:
    the directive that lists the annotated events of a source tree as a
    three-level tree of docutils sections (architectural subdomain, subject,
    event), and the [setup] function that registers it.

    Python strings are modelled as Rocq strings, i.e. as their UTF-8 bytes.
    Splitting at the ASCII dot and comparing lexicographically give the same
    results on the bytes as on the code points. *)

From Stdlib Require Import ZArith String Ascii List Sorting.Sorted.
From stdpp Require Import base option list gmap strings sorting pretty.

Set Warnings "-register-all".

Local Open Scope string_scope.
Local Open Scope list_scope.

(** * The program *)

(** ** Python values, exceptions and results *)

(** The values an annotation record holds: the annotation texts are [str],
    the line number is an [int]. *)
Inductive pyval :=
  | PStr (s : string)
  | PInt (z : Z).

(** [str(v)], which is also what an f-string field [{v}] renders. *)
Definition py_str (v : pyval) : string :=
  match v with
  | PStr s => s
  | PInt z => pretty z
  end.

(** The truth value of [v] in [if v:]. *)
Definition truthy (v : pyval) : bool :=
  match v with
  | PStr s => bool_decide (s ≠ "")
  | PInt z => bool_decide (z ≠ 0%Z)
  end.

(** The exceptions the directive can raise. [IndexError] and [KeyError] are
    the two subclasses of [LookupError]. *)
Inductive exn :=
  | IndexError
  | KeyError (key : string)
  | TypeError.

Inductive Res (A : Type) :=
  | Ok (a : A)
  | Raise (e : exn).
Arguments Ok {A} a.
Arguments Raise {A} e.

#[global] Instance Res_ret : MRet Res := λ A a, Ok a.
#[global] Instance Res_bind : MBind Res := λ A B f r,
  match r with
  | Ok a => f a
  | Raise e => Raise e
  end.

Definition returns {A} (r : Res A) : Prop := ∃ a, r = Ok a.

(** [d[k]] on a dict. *)
Definition getitem {V} (d : gmap string V) (k : string) : Res V :=
  match d !! k with
  | Some v => Ok v
  | None => Raise (KeyError k)
  end.

(** [d.get(k, dflt)] on a dict. *)
Definition dict_get {V} (d : gmap string V) (k : string) (dflt : V) : V :=
  default dflt (d !! k).

(** [l[i]] on a list, for a non-negative [i]. *)
Definition index {A} (l : list A) (i : nat) : Res A :=
  match l !! i with
  | Some x => Ok x
  | None => Raise IndexError
  end.

(** [s.split(sep)] for a one-character separator: every occurrence of the
    separator ends a segment, so the result is never empty and may hold
    empty segments. *)
Fixpoint split (sep : ascii) (s : string) : list string :=
  match s with
  | EmptyString => [EmptyString]
  | String c s' =>
      if Ascii.eqb c sep then EmptyString :: split sep s'
      else match split sep s' with
           | [] => [String c EmptyString]
           | w :: ws => String c w :: ws
           end
  end.

(** [sorted(d)]: the keys of the dict in ascending lexicographic order. *)
Definition sorted {V} (d : gmap string V) : list string :=
  merge_sort String.le (map_to_list d).*1.

(** ** The docutils nodes the directive builds

    Sections are the only nodes the directive mutates after it has let go of
    them (a section that was already yielded can still receive children), so
    they live in a store and are referred to by address. Titles, paragraphs
    and literals are built once and never touched again; they are recorded
    with the arguments of their constructor call. *)

Definition addr := nat.

Module nodes.

Inductive node :=
  | title (text : string) (ids : list string)
  | literal (text : pyval)
  | paragraph (text : string) (children : list node)
  | ref (a : addr).

Record element := Element {
  ids : list string;
  children : list node
}.

Definition store := list element.

(** [nodes.section("", ids=ids)]: a fresh section without children. *)
Definition section (ids : list string) (h : store) : addr * store :=
  (length h, h ++ [Element ids []]).

Definition append (n : node) (e : element) : element :=
  Element (ids e) (children e ++ [n]).

(** [target += n]. On a section this appends [n] to its children and
    leaves the variable bound to the same object; on [None] neither
    operand implements the addition and Python raises [TypeError]. *)
Definition iadd (target : option addr) (n : node) (h : store) : Res store :=
  match target with
  | None => Raise TypeError
  | Some a => Ok (alter (append n) a h)
  end.

(** The sections among a list of children, in order. *)
Fixpoint refs (l : list node) : list addr :=
  match l with
  | [] => []
  | ref a :: l' => a :: refs l'
  | _ :: l' => refs l'
  end.

End nodes.
Import nodes.

(** ** The directive *)

Abbreviation record := (gmap string pyval).
Abbreviation events_map := (gmap string (gmap string pyval)).

(** What [run] reads from its surroundings: the annotation engine (imported
    from [.base]), the path of the events configuration (imported from
    [code_annotations.contrib.config]) and the configured source path. *)
Record directive := Directive {
  find_annotations : string → string → string → events_map;
  OPENEDX_EVENTS_ANNOTATIONS_CONFIG_PATH : string;
  openedxevents_source_path : string
}.

Definition find_events (self : directive) (source_path : string) : events_map :=
  find_annotations self source_path
    (OPENEDX_EVENTS_ANNOTATIONS_CONFIG_PATH self) ".. event_type:".

(** The local variables of [iter_nodes], the store of sections, and the
    nodes yielded so far. *)
Record frame := Frame {
  heap : store;
  current_domain : string;
  domain_header : option addr;
  current_subject : string;
  subject_header : option addr;
  yielded : list addr
}.

Definition initial_frame : frame :=
  Frame [] "" None "" None [].

(** [if domain_header: yield domain_header]. A docutils node is always
    true, so the test only filters [None]. *)
Definition yield_header (fr : frame) : list addr :=
  match domain_header fr with
  | Some d => yielded fr ++ [d]
  | None => yielded fr
  end.

Definition domain_id (domain : string) : string :=
  "openedxevent-domain-" +:+ domain.
Definition domain_title (domain : string) : node :=
  title ("Architectural subdomain: " +:+ domain) [].
Definition subject_id (subject : string) : string :=
  "openedxevent-subject-" +:+ subject.
Definition subject_title (subject : string) : node :=
  title ("Subject: " +:+ subject) [].
Definition event_id (event_type : string) : string :=
  "openedxevent-" +:+ event_type.

(** Lines 81-87: the domain differs from the current one. *)
Definition open_domain (domain : string) (fr : frame) : Res frame :=
  if decide (domain ≠ current_domain fr) then
    let out := yield_header fr in
    let '(d, h) := section [domain_id domain] (heap fr) in
    h ← iadd (Some d) (domain_title domain) h;
    Ok (Frame h domain (Some d) (current_subject fr) (subject_header fr) out)
  else Ok fr.

(** Lines 88-93: the subject differs from the current one. *)
Definition open_subject (subject : string) (fr : frame) : Res frame :=
  if decide (subject ≠ current_subject fr) then
    let '(s, h) := section [subject_id subject] (heap fr) in
    h ← iadd (Some s) (subject_title subject) h;
    h ← iadd (domain_header fr) (ref s) h;
    Ok (Frame h (current_domain fr) (domain_header fr) subject (Some s)
          (yielded fr))
  else Ok fr.

(** Lines 79-93 of the loop body. *)
Definition open_groups (event_type : string) (fr : frame) : Res frame :=
  domain ← index (split "." event_type) 2;
  subject ← index (split "." event_type) 3;
  fr ← open_domain domain fr;
  open_subject subject fr.

(** Lines 95-119 of the loop body: the section of one event. *)
Definition event_section (event_type : string) (event : record) (h : store)
  : Res (addr * store) :=
  event_name ← getitem event ".. event_name:";
  let event_name_literal := literal event_name in
  event_data ← getitem event ".. event_data:";
  let event_data_literal := literal event_data in
  let event_key_field := dict_get event ".. event_key_field:" (PStr "") in
  let event_key_literal := literal event_key_field in
  event_description ← getitem event ".. event_description:";
  let '(es, h) := section [event_id event_type] h in
  h ← iadd (Some es) (title event_type ["title-" +:+ event_type]) h;
  h ← iadd (Some es)
        (paragraph ("Description: " +:+ py_str event_description) []) h;
  h ← iadd (Some es) (paragraph "Signal name: " [event_name_literal]) h;
  h ← (if truthy event_key_field
       then iadd (Some es) (paragraph "Event key field: " [event_key_literal]) h
       else Ok h);
  h ← iadd (Some es) (paragraph "Event data: " [event_data_literal]) h;
  filename ← getitem event "filename";
  line_number ← getitem event "line_number";
  h ← iadd (Some es)
        (paragraph ("Defined at: " +:+ py_str filename +:+ " (line "
                    +:+ py_str line_number +:+ ")") []) h;
  Ok (es, h).

(** One iteration of the loop of [iter_nodes]. *)
Definition loop_body (events : events_map) (fr : frame) (event_type : string)
  : Res frame :=
  fr ← open_groups event_type fr;
  event ← getitem events event_type;
  '(es, h) ← event_section event_type event (heap fr);
  h ← iadd (subject_header fr) (ref es) h;
  Ok (Frame h (current_domain fr) (domain_header fr) (current_subject fr)
        (subject_header fr) (yielded fr)).

Fixpoint for_each (body : frame → string → Res frame) (fr : frame)
  (l : list string) : Res frame :=
  match l with
  | [] => Ok fr
  | x :: l' => fr ← body fr x; for_each body fr l'
  end.

(** The generator, run to exhaustion on the mapping bound at line 71: the
    addresses it yields, in order, and the store they point into. An
    exception leaves the generator before anything reaches the caller. *)
Definition iter_nodes_of (events : events_map) : Res (list addr * store) :=
  fr ← for_each (loop_body events) initial_frame (sorted events);
  Ok (yield_header fr, heap fr).

Definition iter_nodes (self : directive) : Res (list addr * store) :=
  iter_nodes_of (find_events self (openedxevents_source_path self)).

(** [run] is [list(self.iter_nodes())]. *)
Definition run (self : directive) : Res (list addr * store) :=
  iter_nodes self.

(** ** Registration with Sphinx *)

Inductive directive_class := OpenedxEvents.

(** The calls [setup] makes on the application object. *)
Inductive registration :=
  | config_value (name : string) (default : string) (rebuild : string)
  | directive_name (name : string) (cls : directive_class).

(** The application, as far as [setup] is concerned: the registrations it
    has received, oldest first. *)
Definition Sphinx := list registration.

Definition add_config_value (name default rebuild : string) (app : Sphinx)
  : Sphinx :=
  app ++ [config_value name default rebuild].

Definition add_directive (name : string) (cls : directive_class)
  (app : Sphinx) : Sphinx :=
  app ++ [directive_name name cls].

Inductive metavalue :=
  | MStr (s : string)
  | MBool (b : bool).

(** [setup(app)]; [abspath] is [os.path.abspath] in the process that loads
    the extension. *)
Definition setup (abspath : string → string) (app : Sphinx)
  : Sphinx * list (string * metavalue) :=
  let app :=
    add_config_value "openedxevents_source_path" (abspath "..") "env" app in
  let app := add_config_value "openedxevents_repo_url" "" "env" app in
  let app := add_config_value "openedxevents_repo_version" "main" "env" app in
  let app := add_directive "openedxevents" OpenedxEvents app in
  (app, [("version", MStr "0.1");
         ("parallel_read_safe", MBool true);
         ("parallel_write_safe", MBool true)]).

(** * What the claims speak of *)

(** ** Reading the returned tree and the registrations *)

(** The mapping [iter_nodes] works on. *)
Definition events_of (self : directive) : events_map :=
  find_events self (openedxevents_source_path self).

(** The sections directly under the section at [a]. *)
Definition subsections (h : store) (a : addr) : list addr :=
  match h !! a with
  | Some e => refs (children e)
  | None => []
  end.

(** The sections one and two levels below the returned ones, in document
    order. *)
Definition level1 (h : store) (out : list addr) : list addr :=
  out ≫= subsections h.
Definition level2 (h : store) (out : list addr) : list addr :=
  level1 h out ≫= subsections h.

(** The text of the title a section starts with. *)
Definition section_title (h : store) (a : addr) : option string :=
  e ← h !! a;
  match children e with
  | title text _ :: _ => Some text
  | _ => None
  end.

Definition section_ids (h : store) (a : addr) : option (list string) :=
  ids <$> h !! a.

(** The configuration values among some registrations, each with its
    default, and the directive names among them. *)
Definition config_values (app : Sphinx) : list (string * string) :=
  app ≫= (λ r, match r with
               | config_value name default _ => [(name, default)]
               | directive_name _ _ => []
               end).

Definition directive_names (app : Sphinx) : list string :=
  app ≫= (λ r, match r with
               | config_value _ _ _ => []
               | directive_name name _ => [name]
               end).

(** ** Records and identifiers *)

Definition EVENT_NAME : string := ".. event_name:".
Definition EVENT_DATA : string := ".. event_data:".
Definition EVENT_KEY_FIELD : string := ".. event_key_field:".
Definition EVENT_DESCRIPTION : string := ".. event_description:".

(** The fields the loop body reads with a subscript. *)
Definition required_fields : list string :=
  [EVENT_NAME; EVENT_DATA; EVENT_DESCRIPTION; "filename"; "line_number"].

Definition complete (event : record) : Prop :=
  ∀ k, k ∈ required_fields → is_Some (event !! k).

(** The paragraph for the key field of an event. *)
Definition key_field_paragraph (k : pyval) : node :=
  paragraph "Event key field: " [literal k].

Definition key_field_part (event : record) : list node :=
  match event !! EVENT_KEY_FIELD with
  | Some k => if truthy k then [key_field_paragraph k] else []
  | None => []
  end.

(** The leaf section of an event as the documentation of the directive
    describes it: identifier, title, and the labelled fields in order. *)
Definition expected_leaf (event_type : string) (event : record)
  : option element :=
  name ← event !! EVENT_NAME;
  data ← event !! EVENT_DATA;
  description ← event !! EVENT_DESCRIPTION;
  filename ← event !! "filename";
  line_number ← event !! "line_number";
  Some (Element [event_id event_type]
          ([title event_type ["title-" +:+ event_type];
            paragraph ("Description: " +:+ py_str description) [];
            paragraph "Signal name: " [literal name]]
           ++ key_field_part event
           ++ [paragraph "Event data: " [literal data];
               paragraph ("Defined at: " +:+ py_str filename +:+ " (line "
                          +:+ py_str line_number +:+ ")") []])).

(** The segments of an identifier the grouping reads; the empty string
    stands in where the identifier is too short. *)
Definition domain_of (event_type : string) : string :=
  default "" (split "." event_type !! 2).
Definition subject_of (event_type : string) : string :=
  default "" (split "." event_type !! 3).

(** An identifier with at least four dot-separated segments. *)
Definition four_segments (event_type : string) : Prop :=
  (4 ≤ length (split "." event_type))%nat.

(** An identifier the grouping can file: four segments at least, the third
    and the fourth not empty. *)
Definition well_formed (event_type : string) : Prop :=
  four_segments event_type
  ∧ domain_of event_type ≠ "" ∧ subject_of event_type ≠ "".

(** The keys of a record the loop body reads. *)
Definition fields_read : list string :=
  EVENT_KEY_FIELD :: required_fields.

(** Every section of [h] is still in [h'], with its identifiers and with its
    children as the first children. *)
Definition grows (h h' : store) : Prop :=
  ∀ a e, h !! a = Some e →
         ∃ e', h' !! a = Some e' ∧ ids e' = ids e
               ∧ children e `prefix_of` children e'.

(** Where the third segment changes from one identifier of [l] to the
    next, the fourth changes too. *)
Fixpoint no_shared_boundary (l : list string) : Prop :=
  match l with
  | x :: ((y :: _) as l') =>
      (domain_of x ≠ domain_of y → subject_of x ≠ subject_of y)
      ∧ no_shared_boundary l'
  | _ => True
  end.

(** [sep.join(segments)], the inverse of [split]. *)
Fixpoint join (sep : ascii) (segments : list string) : string :=
  match segments with
  | [] => ""
  | [s] => s
  | s :: rest => s +:+ String sep (join sep rest)
  end.

(** The character [c] occurs in [s]. *)
Fixpoint mentions (c : ascii) (s : string) : bool :=
  match s with
  | EmptyString => false
  | String a s' => Ascii.eqb a c || mentions c s'
  end.

(** ** The shape of the tree *)

Definition is_domain_section (h : store) (a : addr) : Prop :=
  ∃ name subs,
    h !! a = Some (Element [domain_id name]
                     (domain_title name :: (ref <$> subs))).

Definition is_subject_section (h : store) (a : addr) : Prop :=
  ∃ name evs,
    h !! a = Some (Element [subject_id name]
                     (subject_title name :: (ref <$> evs))).

Definition is_event_section (events : events_map) (h : store) (a : addr)
  : Prop :=
  ∃ event_type event,
    events !! event_type = Some event
    ∧ is_Some (expected_leaf event_type event)
    ∧ h !! a = expected_leaf event_type event.

(** A section holds the paragraph of the key field. *)
Definition has_key_field_paragraph (e : element) : Prop :=
  ∃ cs, paragraph "Event key field: " cs ∈ children e.

(** The maximal runs of consecutive elements of [l] with the same key, each
    with its key. *)
Fixpoint runs (key : string → string) (l : list string)
  : list (string * list string) :=
  match l with
  | [] => []
  | x :: l' =>
      match runs key l' with
      | (k, r) :: rs =>
          if decide (key x = k) then (k, x :: r) :: rs
          else (key x, [x]) :: (k, r) :: rs
      | [] => [(key x, [x])]
      end
  end.

(** Two runs that follow each other have different keys. *)
Fixpoint adjacent_differ (ks : list string) : Prop :=
  match ks with
  | k1 :: ((k2 :: _) as ks') => k1 ≠ k2 ∧ adjacent_differ ks'
  | _ => True
  end.

(** ** The layout of the store while the loop runs

    A description of the sections allocated so far: the domain sections in
    the order they were opened, each with the subject sections attached to
    it, and the subject sections in the order they were opened, each with
    the event sections attached to it. *)

Record gdomain := GDomain {
  gd_addr : addr;
  gd_name : string;
  gd_subs : list addr
}.

Record gsubject := GSubject {
  gs_addr : addr;
  gs_name : string;
  gs_leaves : list (addr * string)
}.

Record layout := Layout {
  g_domains : list gdomain;
  g_subjects : list gsubject
}.

Definition domain_element (d : gdomain) : element :=
  Element [domain_id (gd_name d)]
    (domain_title (gd_name d) :: (ref <$> gd_subs d)).

Definition subject_element (s : gsubject) : element :=
  Element [subject_id (gs_name s)]
    (subject_title (gs_name s) :: (ref <$> (gs_leaves s).*1)).

Definition leaves (g : layout) : list (addr * string) :=
  g_subjects g ≫= gs_leaves.
Definition dom_addrs (g : layout) : list addr := gd_addr <$> g_domains g.
Definition sub_addrs (g : layout) : list addr := gs_addr <$> g_subjects g.
Definition leaf_addrs (g : layout) : list addr := (leaves g).*1.
Definition all_addrs (g : layout) : list addr :=
  dom_addrs g ++ sub_addrs g ++ leaf_addrs g.

(** The section at [l.1] is the leaf of the event [l.2]. *)
Definition leaf_at (events : events_map) (h : store) (l : addr * string)
  : Prop :=
  ∃ event e, events !! l.2 = Some event
             ∧ expected_leaf l.2 event = Some e ∧ h !! l.1 = Some e.

Record models (events : events_map) (fr : frame) (g : layout) : Prop := Models {
  m_domains : ∀ d, d ∈ g_domains g →
    heap fr !! gd_addr d = Some (domain_element d);
  m_subjects : ∀ s, s ∈ g_subjects g →
    heap fr !! gs_addr s = Some (subject_element s);
  m_leaves : ∀ l, l ∈ leaves g → leaf_at events (heap fr) l;
  m_link : g_domains g ≫= gd_subs = sub_addrs g;
  m_nodup : NoDup (all_addrs g);
  m_alloc : ∀ a, (a < length (heap fr))%nat ↔ a ∈ all_addrs g;
  m_dom_header : last (dom_addrs g) = domain_header fr;
  m_yielded : yield_header fr = dom_addrs g;
  m_sub_header : last (sub_addrs g) = subject_header fr
}.

(** [f] on the last element of a list. *)
Definition on_last {A} (f : A → A) (l : list A) : list A :=
  match reverse l with
  | x :: r => reverse r ++ [f x]
  | [] => []
  end.

(** The layout after a subject section at [a] was opened and attached to the
    last domain, and after the section at [a] of the event [event_type] was
    attached to the last subject. *)
Definition g_open_subject (a : addr) (subject : string) (g : layout)
  : layout :=
  Layout
    (on_last (λ d, GDomain (gd_addr d) (gd_name d) (gd_subs d ++ [a]))
       (g_domains g))
    (g_subjects g ++ [GSubject a subject []]).

Definition g_attach (a : addr) (event_type : string) (g : layout) : layout :=
  Layout (g_domains g)
    (on_last (λ s, GSubject (gs_addr s) (gs_name s)
                     (gs_leaves s ++ [(a, event_type)]))
       (g_subjects g)).

(** The subjects of a layout, each with the event types filed under it. *)
Definition subject_view (g : layout) : list (string * list string) :=
  (λ s, (gs_name s, (gs_leaves s).*2)) <$> g_subjects g.

(** For every subject of a layout, in order, the name of the domain it is
    attached to. *)
Definition parents (g : layout) : list string :=
  g_domains g ≫= (λ d, replicate (length (gd_subs d)) (gd_name d)).

(** Every event of the layout lies under a subject with the name of its
    fourth segment, attached to a domain with the name of its third; every
    domain has a subject; and [cd] and [cs] name the domain of the last
    subject and the last subject. *)
Definition well_grouped (cd cs : string) (g : layout) : Prop :=
  Forall2
    (λ pn s, Forall (λ l : addr * string,
                       domain_of l.2 = pn ∧ subject_of l.2 = gs_name s)
               (gs_leaves s))
    (parents g) (g_subjects g)
  ∧ Forall (λ d, gd_subs d ≠ []) (g_domains g)
  ∧ (g_subjects g ≠ [] →
     last (parents g) = Some cd ∧ gs_name <$> last (g_subjects g) = Some cs).

(** The domains the loop opens when it meets the domains [l] in this order
    with [cur] as the current one. *)
Fixpoint opened (cur : string) (l : list string) : list string :=
  match l with
  | [] => []
  | x :: l' => if decide (x ≠ cur) then x :: opened x l' else opened cur l'
  end.

(** No header is missing once its name has been set. *)
Definition headers_set (fr : frame) : Prop :=
  (domain_header fr = None → current_domain fr = "")
  ∧ (subject_header fr = None → current_subject fr = "").

(** ** Sample inputs *)

(** A directive whose annotation engine finds [events] whatever it is
    asked. *)
Definition serving (events : events_map) : directive :=
  Directive (λ _ _ _, events) "openedx_events_annotations.yaml" "..".

Definition enrollment : record :=
  {[ ".. event_name:" := PStr "COURSE_ENROLLMENT_CREATED";
     ".. event_data:" := PStr "CourseEnrollmentData";
     ".. event_description:" := PStr "emitted when a user enrolls";
     "filename" := PStr "openedx_events/learning/signals.py";
     "line_number" := PInt 42 ]}.

Definition enrollment_keyed : record :=
  <[ ".. event_key_field:" := PStr "enrollment.course.course_key" ]>
    enrollment.

Definition one_event : events_map :=
  {[ "org.openedx.learning.course.enrollment.created.v1" := enrollment_keyed ]}.

(** Two domains whose events have the same subject. *)
Definition shared_subject : events_map :=
  {[ "org.openedx.content.course.created.v1" := enrollment;
     "org.openedx.learning.course.created.v1" := enrollment ]}.

(** A domain whose events are not contiguous in the sorted order. *)
Definition split_domain : events_map :=
  {[ "org.a.learning.course.v1" := enrollment;
     "org.b.content.course.v1" := enrollment;
     "org.c.learning.course.v1" := enrollment ]}.

(** Two domains with different subjects. *)
Definition two_domains : events_map :=
  {[ "org.openedx.content.xblock.published.v1" := enrollment;
     "org.openedx.learning.course.enrollment.created.v1" := enrollment_keyed ]}.

(** An empty third segment in an identifier that is not the smallest. *)
Definition later_empty_domain : events_map :=
  {[ "org.openedx.learning.course.created.v1" := enrollment;
     "org.zulu..course.created.v1" := enrollment ]}.

(** A record without its file name. *)
Definition no_filename : events_map :=
  {[ "org.openedx.learning.course.created.v1" := delete "filename" enrollment ]}.

(** Identifiers with an empty third or fourth segment. *)
Definition empty_domain : events_map :=
  {[ "org.openedx..course.created.v1" := enrollment ]}.
Definition empty_subject : events_map :=
  {[ "org.openedx.learning..created.v1" := enrollment ]}.

(** An identifier with three segments. *)
Definition short_identifier : events_map :=
  {[ "org.openedx.learning" := enrollment ]}.

(** * Proofs *)

Ltac in_list :=
  repeat first [apply list_elem_of_here | apply list_elem_of_further].

(** ** The store *)

Lemma alter_fresh (f : element → element) (h : store) (x : element) :
  alter f (length h) (h ++ [x]) = h ++ [f x].
Proof.
  replace (length h) with (length h + 0) by lia.
  by rewrite alter_app_r.
Qed.

Lemma lookup_fresh (h : store) (x : element) :
  (h ++ [x]) !! length h = Some x.
Proof. by rewrite list_lookup_middle. Qed.

Lemma lookup_old (h : store) (x : element) (a : addr) :
  (a < length h)%nat → (h ++ [x]) !! a = h !! a.
Proof. intros. by rewrite lookup_app_l. Qed.

Lemma refs_app (l k : list node) : refs (l ++ k) = refs l ++ refs k.
Proof.
  induction l as [|n l IH]; [done|].
  destruct n; simpl; by rewrite ?IH.
Qed.

Lemma refs_fmap_ref (l : list addr) : refs (ref <$> l) = l.
Proof. induction l; simpl; by f_equal. Qed.

(** ** The section of one event *)

Lemma event_section_expected event_type event h e :
  expected_leaf event_type event = Some e →
  event_section event_type event h = Ok (length h, h ++ [e]).
Proof.
  unfold expected_leaf, event_section, getitem, dict_get, key_field_part.
  destruct (event !! EVENT_NAME) as [name|] eqn:Hn; [|done].
  destruct (event !! EVENT_DATA) as [data|] eqn:Hd; [|done].
  destruct (event !! EVENT_DESCRIPTION) as [description|] eqn:He; [|done].
  destruct (event !! "filename") as [filename|] eqn:Hf; [|done].
  destruct (event !! "line_number") as [line|] eqn:Hl; [|done].
  simpl. intros [= <-].
  unfold EVENT_NAME, EVENT_DATA, EVENT_DESCRIPTION, EVENT_KEY_FIELD in *.
  rewrite Hn, Hd, He. simpl. rewrite !alter_fresh.
  destruct (event !! ".. event_key_field:") as [k|]; simpl.
  - destruct (truthy k); simpl; by rewrite !alter_fresh.
  - by rewrite !alter_fresh.
Qed.

Lemma expected_leaf_complete event_type event :
  complete event ↔ is_Some (expected_leaf event_type event).
Proof.
  unfold complete, expected_leaf, required_fields. split.
  - intros Hc.
    destruct (Hc EVENT_NAME) as [? ->]; [in_list|].
    destruct (Hc EVENT_DATA) as [? ->]; [in_list|].
    destruct (Hc EVENT_DESCRIPTION) as [? ->]; [in_list|].
    destruct (Hc "filename") as [? ->]; [in_list|].
    destruct (Hc "line_number") as [? ->]; [in_list|].
    by eexists.
  - intros [e He] k Hk.
    destruct (event !! EVENT_NAME) eqn:?; [|done].
    destruct (event !! EVENT_DATA) eqn:?; [|done].
    destruct (event !! EVENT_DESCRIPTION) eqn:?; [|done].
    destruct (event !! "filename") eqn:?; [|done].
    destruct (event !! "line_number") eqn:?; [|done].
    repeat (apply elem_of_cons in Hk as [->|Hk]; [by eexists|]).
    by apply elem_of_nil in Hk.
Qed.

(** A record that lacks a required field makes the subscript at its first
    missing field raise. *)
Lemma event_section_incomplete event_type event h :
  ¬ complete event →
  ∃ k, k ∈ required_fields ∧ event !! k = None
       ∧ event_section event_type event h = Raise (KeyError k).
Proof.
  intros Hc. unfold event_section, getitem, dict_get.
  destruct (event !! EVENT_NAME) as [name|] eqn:Hn; unfold EVENT_NAME in Hn;
    rewrite Hn; simpl;
    [|exists EVENT_NAME; split; [in_list|done]].
  destruct (event !! EVENT_DATA) as [data|] eqn:Hd; unfold EVENT_DATA in Hd;
    rewrite Hd; simpl;
    [|exists EVENT_DATA; split; [in_list|done]].
  destruct (event !! EVENT_DESCRIPTION) as [description|] eqn:He;
    unfold EVENT_DESCRIPTION in He; rewrite He; simpl;
    [|exists EVENT_DESCRIPTION; split; [in_list|done]].
  destruct (event !! "filename") as [filename|] eqn:Hf.
  2:{ exists "filename". split; [in_list|]. split; [done|].
      by destruct (truthy _). }
  destruct (event !! "line_number") as [line|] eqn:Hl.
  2:{ exists "line_number". split; [in_list|]. split; [done|].
      by destruct (truthy _). }
  destruct Hc. intros k Hk.
  repeat (apply elem_of_cons in Hk as [->|Hk]; [by eexists|]).
  by apply elem_of_nil in Hk.
Qed.

Lemma event_section_Ok event_type event h a h' :
  event_section event_type event h = Ok (a, h') →
  ∃ e, expected_leaf event_type event = Some e
       ∧ a = length h ∧ h' = h ++ [e].
Proof.
  intros Hr.
  destruct (expected_leaf event_type event) as [e|] eqn:He.
  - rewrite (event_section_expected _ _ h e He) in Hr.
    injection Hr as <- <-. by exists e.
  - destruct (event_section_incomplete event_type event h) as (k & _ & _ & Hk).
    + rewrite (expected_leaf_complete event_type), He. by intros [? ?].
    + congruence.
Qed.

Lemma expected_leaf_title event_type event e :
  expected_leaf event_type event = Some e →
  ids e = [event_id event_type]
  ∧ ∃ cs, children e = title event_type ["title-" +:+ event_type] :: cs.
Proof.
  unfold expected_leaf.
  destruct (event !! EVENT_NAME); [|done].
  destruct (event !! EVENT_DATA); [|done].
  destruct (event !! EVENT_DESCRIPTION); [|done].
  destruct (event !! "filename"); [|done].
  destruct (event !! "line_number"); [|done].
  simpl. intros [= <-]. split; [done|]. by eexists.
Qed.

Lemma expected_leaf_no_refs event_type event e :
  expected_leaf event_type event = Some e → refs (children e) = [].
Proof.
  unfold expected_leaf, key_field_part.
  destruct (event !! EVENT_NAME); [|done].
  destruct (event !! EVENT_DATA); [|done].
  destruct (event !! EVENT_DESCRIPTION); [|done].
  destruct (event !! "filename"); [|done].
  destruct (event !! "line_number"); [|done].
  simpl. intros [= <-]. simpl.
  destruct (event !! EVENT_KEY_FIELD) as [k|]; [|done].
  by destruct (truthy k).
Qed.

(** ** The layout is kept by every step *)

Lemma models_initial events :
  models events initial_frame (Layout [] []).
Proof.
  split; try done.
  - intros d Hd. by apply elem_of_nil in Hd.
  - intros s Hs. by apply elem_of_nil in Hs.
  - intros l Hl. by apply elem_of_nil in Hl.
  - constructor.
  - intros a. simpl. split; [lia|]. intros Ha. by apply elem_of_nil in Ha.
Qed.

Lemma NoDup_mid (l1 l2 : list addr) (x : addr) :
  NoDup (l1 ++ x :: l2) → (x ∉ l1) ∧ (x ∉ l2).
Proof.
  rewrite <- Permutation_middle, NoDup_cons, elem_of_app. tauto.
Qed.

Lemma store_step_old (f : element → element) (a b : addr) (h : store) x :
  (b < length h)%nat → b ≠ a → alter f a (h ++ [x]) !! b = h !! b.
Proof.
  intros Hb Hne. rewrite list_lookup_alter_ne by done. by apply lookup_old.
Qed.

Lemma store_step_at (f : element → element) (a : addr) (h : store) x :
  (a < length h)%nat → alter f a (h ++ [x]) !! a = f <$> h !! a.
Proof. intros Ha. by rewrite list_lookup_alter_eq, lookup_old. Qed.

Lemma store_step_new (f : element → element) (a : addr) (h : store) x :
  (a < length h)%nat → alter f a (h ++ [x]) !! length h = Some x.
Proof.
  intros Ha. rewrite list_lookup_alter_ne by lia. apply lookup_fresh.
Qed.

Lemma leaf_at_agree events h h' l :
  h' !! l.1 = h !! l.1 → leaf_at events h l → leaf_at events h' l.
Proof. intros Heq (event & e & ? & ? & ?). exists event, e. by rewrite Heq. Qed.

(** A fresh address joins the addresses of the layout. *)
Lemma all_addrs_extend (D S L e1 e2 e3 : list addr) :
  (D ++ e1) ++ (S ++ e2) ++ (L ++ e3) ≡ₚ (e1 ++ e2 ++ e3) ++ D ++ S ++ L.
Proof.
  rewrite (Permutation_app_comm D e1), (Permutation_app_comm S e2),
    (Permutation_app_comm L e3), <- !app_assoc.
  apply Permutation_app_head.
  rewrite (app_assoc D e2), (Permutation_app_comm D e2), <- app_assoc.
  apply Permutation_app_head.
  rewrite (app_assoc S e3), (Permutation_app_comm S e3), <- app_assoc.
  rewrite (app_assoc D e3), (Permutation_app_comm D e3), <- app_assoc.
  done.
Qed.

Lemma fresh_addr events fr g g' (h' : store) (e1 e2 e3 : list addr) :
  models events fr g →
  dom_addrs g' = dom_addrs g ++ e1 →
  sub_addrs g' = sub_addrs g ++ e2 →
  leaf_addrs g' = leaf_addrs g ++ e3 →
  e1 ++ e2 ++ e3 = [length (heap fr)] →
  length h' = S (length (heap fr)) →
  NoDup (all_addrs g') ∧ ∀ a, (a < length h')%nat ↔ a ∈ all_addrs g'.
Proof.
  intros Hm H1 H2 H3 He Hlen.
  assert (Hl : all_addrs g' ≡ₚ length (heap fr) :: all_addrs g).
  { unfold all_addrs at 1. rewrite H1, H2, H3, all_addrs_extend, He. done. }
  split.
  - rewrite Hl. apply NoDup_cons. split; [|by apply (m_nodup _ _ _ Hm)].
    intros Hin. apply (m_alloc _ _ _ Hm) in Hin. lia.
  - intros b. rewrite Hl, Hlen, elem_of_cons, <- (m_alloc _ _ _ Hm). lia.
Qed.

Lemma on_last_snoc {A} (f : A → A) (l : list A) (x : A) :
  on_last f (l ++ [x]) = l ++ [f x].
Proof. unfold on_last. by rewrite reverse_snoc, reverse_involutive. Qed.

(** Opening a domain section. *)
Lemma open_domain_step events fr g domain fr' :
  models events fr g →
  open_domain domain fr = Ok fr' →
  ∃ g', models events fr' g'
        ∧ gd_name <$> g_domains g'
          = (gd_name <$> g_domains g)
            ++ (if decide (domain ≠ current_domain fr) then [domain] else [])
        ∧ g_subjects g' = g_subjects g
        ∧ current_domain fr' = domain
        ∧ current_subject fr' = current_subject fr
        ∧ g' = (if decide (domain ≠ current_domain fr)
                then Layout
                       (g_domains g
                        ++ [GDomain (length (heap fr)) domain []])
                       (g_subjects g)
                else g).
Proof.
  intros Hm. unfold open_domain.
  destruct (decide (domain ≠ current_domain fr)) as [Hne|Heq].
  2:{ intros [= <-]. exists g. rewrite app_nil_r.
      repeat split; try done; try apply Hm. by apply dec_stable in Heq. }
  simpl. rewrite alter_fresh. intros [= <-].
  set (d := GDomain (length (heap fr)) domain []).
  exists (Layout (g_domains g ++ [d]) (g_subjects g)).
  split; [|simpl; by rewrite fmap_app].
  destruct (fresh_addr events fr g
              (Layout (g_domains g ++ [d]) (g_subjects g))
              (heap fr ++ [domain_element d])
              [length (heap fr)] [] [] Hm) as [Hnd Hal].
  { unfold dom_addrs. simpl. by rewrite fmap_app. }
  { unfold sub_addrs. simpl. by rewrite app_nil_r. }
  { unfold leaf_addrs, leaves. simpl. by rewrite app_nil_r. }
  { done. }
  { rewrite length_app. simpl. lia. }
  assert (Hold : ∀ b, b ∈ all_addrs g →
            (heap fr ++ [domain_element d]) !! b = heap fr !! b).
  { intros b Hb. apply lookup_old. by apply (m_alloc _ _ _ Hm). }
  split; simpl; try done.
  - intros d' [Hd'| ->%list_elem_of_singleton]%elem_of_app.
    + rewrite Hold; [by apply (m_domains _ _ _ Hm)|].
      unfold all_addrs, dom_addrs. rewrite elem_of_app. left.
      by apply list_elem_of_fmap_2.
    + apply lookup_fresh.
  - intros s Hs. rewrite Hold; [by apply (m_subjects _ _ _ Hm)|].
    unfold all_addrs, sub_addrs. rewrite !elem_of_app. right; left.
    by apply list_elem_of_fmap_2.
  - intros l Hl. apply (leaf_at_agree _ (heap fr)); [|by apply (m_leaves _ _ _ Hm)].
    apply Hold. unfold all_addrs, leaf_addrs. rewrite !elem_of_app.
    right; right. by apply list_elem_of_fmap_2.
  - rewrite bind_app, bind_singleton. simpl. rewrite app_nil_r.
    apply (m_link _ _ _ Hm).
  - unfold dom_addrs. simpl. rewrite fmap_app. simpl. by rewrite last_snoc.
  - unfold yield_header, dom_addrs. simpl. rewrite fmap_app. simpl.
    f_equal. apply (m_yielded _ _ _ Hm).
  - apply (m_sub_header _ _ _ Hm).
Qed.

Lemma open_domain_models events fr g domain fr' :
  models events fr g →
  open_domain domain fr = Ok fr' →
  ∃ g', models events fr' g'
        ∧ gd_name <$> g_domains g'
          = (gd_name <$> g_domains g)
            ++ (if decide (domain ≠ current_domain fr) then [domain] else [])
        ∧ g_subjects g' = g_subjects g
        ∧ current_domain fr' = domain
        ∧ current_subject fr' = current_subject fr.
Proof.
  intros Hm Ho.
  destruct (open_domain_step _ _ _ _ _ Hm Ho)
    as (g' & H1 & H2 & H3 & H4 & H5 & _).
  by exists g'.
Qed.

(** Opening a subject section and attaching it to the current domain. *)
Lemma open_subject_step events fr g subject fr' :
  models events fr g →
  open_subject subject fr = Ok fr' →
  ∃ g', models events fr' g'
        ∧ gd_name <$> g_domains g' = gd_name <$> g_domains g
        ∧ leaves g' = leaves g
        ∧ current_domain fr' = current_domain fr
        ∧ current_subject fr' = subject
        ∧ (subject ≠ current_subject fr → g_domains g ≠ [])
        ∧ g' = (if decide (subject ≠ current_subject fr)
                then g_open_subject (length (heap fr)) subject g
                else g).
Proof.
  intros Hm. unfold open_subject.
  destruct (decide (subject ≠ current_subject fr)) as [Hne|Heq].
  2:{ intros [= <-]. exists g. apply dec_stable in Heq.
      by repeat (split; [done|]). }
  simpl. rewrite alter_fresh.
  destruct (domain_header fr) as [d|] eqn:Hd; [|done].
  simpl. intros [= <-].
  pose proof (m_dom_header _ _ _ Hm) as Hlast.
  unfold dom_addrs in Hlast. rewrite fmap_last, Hd in Hlast.
  destruct (last (g_domains g)) as [gd|] eqn:Hgd; [|done].
  injection Hlast as Hgda.
  apply last_Some in Hgd as [G0 HG0].
  set (s := length (heap fr)).
  set (gd' := GDomain (gd_addr gd) (gd_name gd) (gd_subs gd ++ [s])).
  set (gs := GSubject s subject []).
  exists (Layout (G0 ++ [gd']) (g_subjects g ++ [gs])).
  assert (Hsplit : all_addrs g
            = (gd_addr <$> G0) ++ d :: (sub_addrs g ++ leaf_addrs g)).
  { unfold all_addrs, dom_addrs. rewrite HG0, fmap_app. simpl.
    rewrite Hgda. by rewrite <- app_assoc. }
  pose proof (m_nodup _ _ _ Hm) as Hnd0. rewrite Hsplit in Hnd0.
  apply NoDup_mid in Hnd0 as [HdG0 Hdrest].
  assert (Hdlt : (d < length (heap fr))%nat).
  { apply (m_alloc _ _ _ Hm). rewrite Hsplit. rewrite elem_of_app.
    right. apply list_elem_of_here. }
  assert (Hleaves : leaves (Layout (G0 ++ [gd']) (g_subjects g ++ [gs]))
                    = leaves g).
  { unfold leaves. simpl. rewrite bind_app, bind_singleton. simpl.
    by rewrite app_nil_r. }
  split; [|split; [|split; [done|split; [done|split; [done|split]]]]].
  2:{ simpl. rewrite HG0, !fmap_app. done. }
  2:{ intros _. rewrite HG0. by destruct G0. }
  2:{ unfold g_open_subject. by rewrite HG0, on_last_snoc. }
  destruct (fresh_addr events fr g
              (Layout (G0 ++ [gd']) (g_subjects g ++ [gs]))
              (alter (append (ref s)) d
                 (heap fr ++ [subject_element gs]))
              [] [s] [] Hm) as [Hnd Hal].
  { unfold dom_addrs. simpl. by rewrite HG0, !fmap_app, app_nil_r. }
  { unfold sub_addrs. simpl. by rewrite fmap_app. }
  { unfold leaf_addrs. by rewrite Hleaves, app_nil_r. }
  { done. }
  { rewrite length_alter, length_app. simpl. lia. }
  split; simpl; try done.
  - intros d' [Hd'| ->%list_elem_of_singleton]%elem_of_app.
    + rewrite store_step_old.
      * apply (m_domains _ _ _ Hm). rewrite HG0, elem_of_app. by left.
      * apply (m_alloc _ _ _ Hm). rewrite Hsplit, elem_of_app. left.
        by apply list_elem_of_fmap_2.
      * intros Heq. apply HdG0. rewrite <- Heq.
        by apply list_elem_of_fmap_2.
    + simpl. rewrite Hgda, store_step_at by done.
      rewrite <- Hgda, (m_domains _ _ _ Hm gd).
      * simpl. unfold domain_element, append. simpl.
        by rewrite fmap_app.
      * rewrite HG0, elem_of_app. right. apply list_elem_of_here.
  - intros s' [Hs'| ->%list_elem_of_singleton]%elem_of_app.
    + assert (Hin : gs_addr s' ∈ sub_addrs g ++ leaf_addrs g).
      { rewrite elem_of_app. left. by apply list_elem_of_fmap_2. }
      rewrite store_step_old.
      * by apply (m_subjects _ _ _ Hm).
      * apply (m_alloc _ _ _ Hm). rewrite Hsplit, elem_of_app. right.
        by apply list_elem_of_further.
      * intros Heq. apply Hdrest. by rewrite <- Heq.
    + by apply store_step_new.
  - intros l Hl. rewrite Hleaves in Hl.
    assert (Hin : l.1 ∈ sub_addrs g ++ leaf_addrs g).
    { rewrite elem_of_app. right. by apply list_elem_of_fmap_2. }
    apply (leaf_at_agree _ (heap fr)); [|by apply (m_leaves _ _ _ Hm)].
    apply store_step_old.
    + apply (m_alloc _ _ _ Hm). rewrite Hsplit, elem_of_app. right.
      by apply list_elem_of_further.
    + intros Heq. apply Hdrest. by rewrite <- Heq.
  - rewrite bind_app, bind_singleton. simpl.
    unfold sub_addrs. simpl. rewrite fmap_app. simpl.
    rewrite app_assoc. f_equal.
    pose proof (m_link _ _ _ Hm) as Hlink.
    rewrite HG0, bind_app, bind_singleton in Hlink. done.
  - unfold dom_addrs. simpl. rewrite fmap_app. simpl.
    by rewrite last_snoc, Hgda.
  - unfold yield_header, dom_addrs. simpl.
    pose proof (m_yielded _ _ _ Hm) as Hy.
    unfold yield_header, dom_addrs in Hy. rewrite Hd, HG0 in Hy.
    by rewrite Hy, !fmap_app.
  - unfold sub_addrs. simpl. rewrite fmap_app. simpl. by rewrite last_snoc.
Qed.

Lemma open_subject_models events fr g subject fr' :
  models events fr g →
  open_subject subject fr = Ok fr' →
  ∃ g', models events fr' g'
        ∧ gd_name <$> g_domains g' = gd_name <$> g_domains g
        ∧ leaves g' = leaves g
        ∧ current_domain fr' = current_domain fr.
Proof.
  intros Hm Ho.
  destruct (open_subject_step _ _ _ _ _ Hm Ho)
    as (g' & H1 & H2 & H3 & H4 & _).
  by exists g'.
Qed.

(** Attaching the section of an event to the current subject. *)
Lemma attach_step events fr g event_type event e h' :
  models events fr g →
  events !! event_type = Some event →
  expected_leaf event_type event = Some e →
  iadd (subject_header fr) (ref (length (heap fr))) (heap fr ++ [e]) = Ok h' →
  ∃ g', models events
          (Frame h' (current_domain fr) (domain_header fr)
             (current_subject fr) (subject_header fr) (yielded fr)) g'
        ∧ g_domains g' = g_domains g
        ∧ leaves g' = leaves g ++ [(length (heap fr), event_type)]
        ∧ g_subjects g ≠ []
        ∧ g' = g_attach (length (heap fr)) event_type g.
Proof.
  intros Hm Hev He. unfold iadd.
  destruct (subject_header fr) as [s|] eqn:Hs; [|done].
  intros [= <-].
  pose proof (m_sub_header _ _ _ Hm) as Hlast.
  unfold sub_addrs in Hlast. rewrite fmap_last, Hs in Hlast.
  destruct (last (g_subjects g)) as [gs|] eqn:Hgs; [|done].
  injection Hlast as Hgsa.
  apply last_Some in Hgs as [S0 HS0].
  set (l := length (heap fr)).
  set (gs' := GSubject (gs_addr gs) (gs_name gs)
                (gs_leaves gs ++ [(l, event_type)])).
  exists (Layout (g_domains g) (S0 ++ [gs'])).
  assert (Hsplit : all_addrs g
            = (dom_addrs g ++ (gs_addr <$> S0)) ++ s :: leaf_addrs g).
  { unfold all_addrs, sub_addrs. rewrite HS0, fmap_app. simpl.
    rewrite Hgsa. by rewrite <- !app_assoc. }
  pose proof (m_nodup _ _ _ Hm) as Hnd0. rewrite Hsplit in Hnd0.
  apply NoDup_mid in Hnd0 as [Hsl Hsr].
  assert (Hslt : (s < length (heap fr))%nat).
  { apply (m_alloc _ _ _ Hm). rewrite Hsplit. rewrite elem_of_app.
    right. apply list_elem_of_here. }
  assert (Hleaves : leaves (Layout (g_domains g) (S0 ++ [gs']))
                    = leaves g ++ [(l, event_type)]).
  { unfold leaves. simpl.
    rewrite HS0, !bind_app, !bind_singleton. simpl. by rewrite app_assoc. }
  split; [|split; [done|split; [done|split]]].
  2:{ rewrite HS0. by destruct S0. }
  2:{ unfold g_attach. by rewrite HS0, on_last_snoc. }
  destruct (fresh_addr events fr g
              (Layout (g_domains g) (S0 ++ [gs']))
              (alter (append (ref l)) s (heap fr ++ [e]))
              [] [] [l] Hm) as [Hnd Hal].
  { unfold dom_addrs. simpl. by rewrite app_nil_r. }
  { unfold sub_addrs. simpl. by rewrite HS0, !fmap_app, app_nil_r. }
  { unfold leaf_addrs. by rewrite Hleaves, fmap_app. }
  { done. }
  { rewrite length_alter, length_app. simpl. lia. }
  assert (Hold : ∀ b, b ∈ all_addrs g → b ≠ s →
            alter (append (ref l)) s (heap fr ++ [e]) !! b = heap fr !! b).
  { intros b Hb Hne. apply store_step_old; [|done].
    by apply (m_alloc _ _ _ Hm). }
  split; simpl; try done.
  - intros d' Hd'.
    assert (Hin : gd_addr d' ∈ dom_addrs g ++ (gs_addr <$> S0)).
    { rewrite elem_of_app. left. by apply list_elem_of_fmap_2. }
    rewrite Hold.
    + by apply (m_domains _ _ _ Hm).
    + rewrite Hsplit, elem_of_app. by left.
    + intros Heq. apply Hsl. by rewrite <- Heq.
  - intros s' [Hs'| ->%list_elem_of_singleton]%elem_of_app.
    + assert (Hin : gs_addr s' ∈ dom_addrs g ++ (gs_addr <$> S0)).
      { rewrite elem_of_app. right. by apply list_elem_of_fmap_2. }
      rewrite Hold.
      * apply (m_subjects _ _ _ Hm). rewrite HS0, elem_of_app. by left.
      * rewrite Hsplit, elem_of_app. by left.
      * intros Heq. apply Hsl. by rewrite <- Heq.
    + simpl. rewrite Hgsa, store_step_at by done.
      rewrite <- Hgsa, (m_subjects _ _ _ Hm gs).
      * simpl. unfold subject_element, append. simpl.
        by rewrite !fmap_app.
      * rewrite HS0, elem_of_app. right. apply list_elem_of_here.
  - intros x Hx. rewrite Hleaves in Hx.
    apply elem_of_app in Hx as [Hx| ->%list_elem_of_singleton].
    + assert (Hin : x.1 ∈ leaf_addrs g) by by apply list_elem_of_fmap_2.
      apply (leaf_at_agree _ (heap fr)); [|by apply (m_leaves _ _ _ Hm)].
      apply Hold.
      * rewrite Hsplit, elem_of_app. right. by apply list_elem_of_further.
      * intros Heq. apply Hsr. by rewrite <- Heq.
    + exists event, e. simpl. split; [done|]. split; [done|].
      by apply store_step_new.
  - rewrite (m_link _ _ _ Hm). unfold sub_addrs. simpl.
    by rewrite HS0, !fmap_app.
  - apply (m_dom_header _ _ _ Hm).
  - apply (m_yielded _ _ _ Hm).
  - unfold sub_addrs. simpl. rewrite fmap_app. simpl.
    by rewrite last_snoc, Hgsa.
Qed.

Lemma attach_models events fr g event_type event e h' :
  models events fr g →
  events !! event_type = Some event →
  expected_leaf event_type event = Some e →
  iadd (subject_header fr) (ref (length (heap fr))) (heap fr ++ [e]) = Ok h' →
  ∃ g', models events
          (Frame h' (current_domain fr) (domain_header fr)
             (current_subject fr) (subject_header fr) (yielded fr)) g'
        ∧ g_domains g' = g_domains g
        ∧ leaves g' = leaves g ++ [(length (heap fr), event_type)].
Proof.
  intros Hm Hev He Hi.
  destruct (attach_step _ _ _ _ _ _ _ Hm Hev He Hi)
    as (g' & H1 & H2 & H3 & _).
  by exists g'.
Qed.

(** ** One iteration *)

Lemma index_Ok {A} (l : list A) i x : index l i = Ok x ↔ l !! i = Some x.
Proof.
  unfold index. destruct (l !! i); split; intros; simplify_eq; done.
Qed.

Lemma open_groups_Ok event_type fr fr' :
  open_groups event_type fr = Ok fr' →
  four_segments event_type
  ∧ ∃ fr1, open_domain (domain_of event_type) fr = Ok fr1
           ∧ open_subject (subject_of event_type) fr1 = Ok fr'.
Proof.
  unfold open_groups, four_segments, domain_of, subject_of.
  destruct (index (split "." event_type) 2) as [domain|] eqn:Hd; [|done].
  destruct (index (split "." event_type) 3) as [subject|] eqn:Hs; [|done].
  apply index_Ok in Hd, Hs. rewrite Hd, Hs. simpl.
  destruct (open_domain domain fr) as [fr1|] eqn:H1; [|done].
  simpl. intros H2. split; [|by exists fr1].
  apply lookup_lt_Some in Hs. lia.
Qed.

Lemma loop_body_models events fr g event_type fr' :
  models events fr g →
  loop_body events fr event_type = Ok fr' →
  ∃ g', models events fr' g'
        ∧ gd_name <$> g_domains g'
          = (gd_name <$> g_domains g)
            ++ (if decide (domain_of event_type ≠ current_domain fr)
                then [domain_of event_type] else [])
        ∧ (leaves g').*2 = (leaves g).*2 ++ [event_type]
        ∧ current_domain fr' = domain_of event_type
        ∧ four_segments event_type.
Proof.
  intros Hm. unfold loop_body.
  destruct (open_groups event_type fr) as [fr2|] eqn:Hg; [|done].
  apply open_groups_Ok in Hg as (H4 & fr1 & Hd & Hs).
  destruct (open_domain_models _ _ _ _ _ Hm Hd)
    as (g1 & Hm1 & Hn1 & Hs1 & Hcd1 & _).
  destruct (open_subject_models _ _ _ _ _ Hm1 Hs)
    as (g2 & Hm2 & Hn2 & Hl2 & Hcd2).
  simpl. unfold getitem.
  destruct (events !! event_type) as [event|] eqn:Hev; [|done].
  simpl.
  destruct (event_section event_type event (heap fr2)) as [[es h]|] eqn:Hes;
    [|done].
  apply event_section_Ok in Hes as (e & He & -> & ->).
  simpl.
  destruct (iadd (subject_header fr2) (ref (length (heap fr2)))
              (heap fr2 ++ [e])) as [h'|] eqn:Hi; [|done].
  simpl. intros [= <-].
  destruct (attach_models _ _ _ _ _ _ _ Hm2 Hev He Hi) as (g3 & Hm3 & Hn3 & Hl3).
  exists g3. split; [done|]. split; [by rewrite Hn3, Hn2, Hn1|].
  split; [|split; [simpl; congruence|done]].
  rewrite Hl3, Hl2, fmap_app. unfold leaves. by rewrite Hs1.
Qed.

(** One iteration on a record that lacks a required field, when the
    grouping lines pass. *)
Lemma loop_body_missing_field events fr fr1 event_type event :
  events !! event_type = Some event →
  open_groups event_type fr = Ok fr1 →
  ¬ complete event →
  ∃ k, k ∈ required_fields ∧ event !! k = None
       ∧ loop_body events fr event_type = Raise (KeyError k).
Proof.
  intros Hev Hg Hc.
  destruct (event_section_incomplete event_type event (heap fr1) Hc)
    as (k & Hk & Hnone & Hr).
  exists k. split; [done|]. split; [done|].
  unfold loop_body, getitem. rewrite Hg. simpl. rewrite Hev. simpl.
  by rewrite Hr.
Qed.

(** ** The whole loop *)

Lemma for_each_models events l : ∀ fr g fr',
  models events fr g →
  for_each (loop_body events) fr l = Ok fr' →
  ∃ g', models events fr' g'
        ∧ gd_name <$> g_domains g'
          = (gd_name <$> g_domains g)
            ++ opened (current_domain fr) (domain_of <$> l)
        ∧ (leaves g').*2 = (leaves g).*2 ++ l
        ∧ Forall four_segments l.
Proof.
  induction l as [|x l IH]; intros fr g fr' Hm; simpl.
  - intros [= <-]. exists g. by rewrite !app_nil_r.
  - destruct (loop_body events fr x) as [fr1|] eqn:Hb; [|done].
    simpl. intros Hl.
    destruct (loop_body_models _ _ _ _ _ Hm Hb)
      as (g1 & Hm1 & Hn1 & Hl1 & Hcd & H4).
    destruct (IH _ _ _ Hm1 Hl) as (g2 & Hm2 & Hn2 & Hl2 & Hall).
    exists g2. split; [done|]. split; [|split].
    + rewrite Hn2, Hn1, Hcd, <- app_assoc. f_equal.
      destruct (decide (domain_of x ≠ current_domain fr))
        as [?|Heq%dec_stable]; [done|]. simpl. by rewrite Heq.
    + by rewrite Hl2, Hl1, <- app_assoc.
    + by constructor.
Qed.

(** ** Sorting the keys *)

Lemma sorted_perm {V} (d : gmap string V) : sorted d ≡ₚ (map_to_list d).*1.
Proof. apply merge_sort_Permutation. Qed.

Lemma sorted_NoDup {V} (d : gmap string V) : NoDup (sorted d).
Proof. rewrite sorted_perm. apply NoDup_fst_map_to_list. Qed.

Lemma elem_of_sorted {V} (d : gmap string V) k :
  k ∈ sorted d ↔ is_Some (d !! k).
Proof.
  rewrite sorted_perm, list_elem_of_fmap. split.
  - intros ([k' v] & -> & Hin). apply elem_of_map_to_list in Hin. by exists v.
  - intros [v Hv]. exists (k, v). split; [done|].
    by apply elem_of_map_to_list.
Qed.

Lemma sorted_ascending {V} (d : gmap string V) :
  StronglySorted String.le (sorted d).
Proof. apply (StronglySorted_merge_sort String.le). Qed.

(** Distinct keys in ascending order are in strictly ascending order. *)
Lemma sorted_strict {V} (d : gmap string V) :
  StronglySorted (strict String.le) (sorted d).
Proof.
  pose proof (sorted_NoDup d) as Hnd.
  pose proof (sorted_ascending d) as Hs.
  induction Hs as [|x l Hs IH Hall]; [constructor|].
  apply NoDup_cons in Hnd as [Hx Hnd].
  constructor; [by apply IH|].
  apply Forall_forall. intros y Hy. split.
  - by apply (proj1 (Forall_forall _ _) Hall).
  - intros Hyx.
    assert (x = y) as ->; [|done].
    apply (anti_symm String.le); [|done].
    by apply (proj1 (Forall_forall _ _) Hall).
Qed.

Lemma sorted_empty {V} : sorted (∅ : gmap string V) = [].
Proof. unfold sorted. by rewrite map_to_list_empty. Qed.

(** ** Reading the tree back from the store *)

Lemma bind_ext_elem {A B} (f g : A → list B) (l : list A) :
  (∀ x, x ∈ l → f x = g x) → l ≫= f = l ≫= g.
Proof.
  induction l as [|x l IH]; intros Hfg; [done|].
  rewrite !bind_cons, Hfg, IH; [done| |apply list_elem_of_here].
  intros y Hy. apply Hfg. by apply list_elem_of_further.
Qed.

Lemma level1_models events fr g :
  models events fr g → level1 (heap fr) (dom_addrs g) = sub_addrs g.
Proof.
  intros Hm. unfold level1, dom_addrs.
  rewrite list_fmap_bind, <- (m_link _ _ _ Hm).
  apply bind_ext_elem. intros d Hd. simpl. unfold subsections.
  rewrite (m_domains _ _ _ Hm d Hd). simpl. apply refs_fmap_ref.
Qed.

Lemma level2_models events fr g :
  models events fr g → level2 (heap fr) (dom_addrs g) = leaf_addrs g.
Proof.
  intros Hm. unfold level2. rewrite (level1_models _ _ _ Hm).
  unfold sub_addrs, leaf_addrs, leaves.
  rewrite list_fmap_bind.
  assert (Hb : ∀ l : list gsubject,
            (l ≫= gs_leaves).*1 = l ≫= (λ s, (gs_leaves s).*1)).
  { induction l as [|s l IH]; [done|].
    by rewrite !bind_cons, fmap_app, IH. }
  rewrite Hb. apply bind_ext_elem. intros s Hs. simpl. unfold subsections.
  rewrite (m_subjects _ _ _ Hm s Hs). simpl. apply refs_fmap_ref.
Qed.

(** What a completed run leaves behind. *)
Lemma iter_nodes_of_models events out h :
  iter_nodes_of events = Ok (out, h) →
  ∃ fr g, models events fr g
          ∧ heap fr = h ∧ dom_addrs g = out
          ∧ gd_name <$> g_domains g
            = opened "" (domain_of <$> sorted events)
          ∧ (leaves g).*2 = sorted events
          ∧ Forall four_segments (sorted events).
Proof.
  unfold iter_nodes_of.
  destruct (for_each (loop_body events) initial_frame (sorted events))
    as [fr|] eqn:Hl; [|done].
  simpl. intros [= <- <-].
  destruct (for_each_models _ _ _ _ _ (models_initial events) Hl)
    as (g & Hm & Hn & Hlv & H4).
  exists fr, g. split; [done|]. split; [done|].
  split; [symmetry; apply (m_yielded _ _ _ Hm)|].
  by split; [|split].
Qed.

(** ** When the loop completes *)

Lemma four_segments_lookup event_type :
  four_segments event_type →
  split "." event_type !! 2 = Some (domain_of event_type)
  ∧ split "." event_type !! 3 = Some (subject_of event_type).
Proof.
  unfold four_segments, domain_of, subject_of. intros H4.
  destruct (lookup_lt_is_Some_2 (split "." event_type) 2) as [d ->]; [lia|].
  destruct (lookup_lt_is_Some_2 (split "." event_type) 3) as [s ->]; [lia|].
  done.
Qed.

Lemma loop_body_returns events fr event_type event :
  events !! event_type = Some event →
  complete event →
  well_formed event_type →
  headers_set fr →
  ∃ fr', loop_body events fr event_type = Ok fr'
         ∧ domain_header fr' ≠ None ∧ subject_header fr' ≠ None.
Proof.
  intros Hev Hc (H4 & Hd & Hs) [Hhd Hhs].
  destruct (four_segments_lookup _ H4) as [Hl2 Hl3].
  apply (expected_leaf_complete event_type) in Hc as [e He].
  unfold loop_body, open_groups, index. rewrite Hl2, Hl3. simpl.
  assert (Hod : ∃ fr1, open_domain (domain_of event_type) fr = Ok fr1
                  ∧ domain_header fr1 ≠ None
                  ∧ current_subject fr1 = current_subject fr
                  ∧ subject_header fr1 = subject_header fr).
  { unfold open_domain.
    destruct (decide (domain_of event_type ≠ current_domain fr)) as [Hne|Heq].
    - simpl. eexists. split; [done|]. by simpl.
    - exists fr. split; [done|]. split; [|done].
      apply dec_stable in Heq. intros Hnone. apply Hd.
      by rewrite Heq, Hhd. }
  destruct Hod as (fr1 & -> & Hd1 & Hcs1 & Hsh1). simpl.
  assert (Hos : ∃ fr2, open_subject (subject_of event_type) fr1 = Ok fr2
                  ∧ domain_header fr2 ≠ None ∧ subject_header fr2 ≠ None).
  { unfold open_subject.
    destruct (decide (subject_of event_type ≠ current_subject fr1))
      as [Hne|Heq].
    - simpl. destruct (domain_header fr1) as [d|] eqn:Hdh; [|done].
      simpl. eexists. split; [done|]. by simpl.
    - exists fr1. split; [done|]. split; [done|].
      apply dec_stable in Heq. rewrite Hsh1. intros Hnone. apply Hs.
      by rewrite Heq, Hcs1, Hhs. }
  destruct Hos as (fr2 & -> & Hd2 & Hs2). simpl.
  unfold getitem. rewrite Hev. simpl.
  rewrite (event_section_expected _ _ _ _ He). simpl.
  destruct (subject_header fr2) as [s|] eqn:Hsh; [|done].
  simpl. eexists. split; [done|]. simpl. by rewrite ?Hsh.
Qed.

Lemma for_each_returns events l : ∀ fr,
  Forall (λ et, ∃ event, events !! et = Some event ∧ complete event) l →
  Forall well_formed l →
  headers_set fr →
  returns (for_each (loop_body events) fr l).
Proof.
  induction l as [|x l IH]; intros fr Hev Hwf Hh; simpl.
  - by exists fr.
  - apply Forall_cons in Hev as [(event & Hx & Hc) Hev].
    apply Forall_cons in Hwf as [Hwx Hwf].
    destruct (loop_body_returns _ _ _ _ Hx Hc Hwx Hh)
      as (fr1 & -> & Hd1 & Hs1).
    simpl. apply IH; [done..|]. by split.
Qed.

Lemma iter_nodes_of_returns (events : events_map) :
  (∀ et event, events !! et = Some event → complete event ∧ well_formed et) →
  returns (iter_nodes_of events).
Proof.
  intros Hall. unfold iter_nodes_of.
  destruct (for_each_returns events (sorted events) initial_frame)
    as [fr ->].
  - apply Forall_forall. intros et [event Hev]%elem_of_sorted.
    exists event. split; [done|]. by apply (Hall et event).
  - apply Forall_forall. intros et [event Hev]%elem_of_sorted.
    by apply (Hall et event).
  - by split.
  - by eexists.
Qed.

(** ** Maximal runs *)

Lemma runs_concat key l : runs key l ≫= snd = l.
Proof.
  induction l as [|x l IH]; [done|]. simpl.
  destruct (runs key l) as [|[k r] rs]; [by destruct l|].
  rewrite bind_cons in IH. simpl in IH.
  destruct (decide (key x = k)); rewrite !bind_cons; simpl; by rewrite <- IH.
Qed.

Lemma runs_uniform key l :
  Forall (λ kr, kr.2 ≠ [] ∧ Forall (λ x, key x = kr.1) kr.2) (runs key l).
Proof.
  induction l as [|x l IH]; simpl; [constructor|].
  destruct (runs key l) as [|[k r] rs].
  - repeat constructor. done.
  - apply Forall_cons in IH as [[Hne Hr] IH]. simpl in *.
    destruct (decide (key x = k)) as [Hk|Hk].
    + constructor; [|done]. simpl. split; [done|]. by constructor.
    + constructor; [|by constructor]. simpl. split; [done|].
      by repeat constructor.
Qed.

Lemma runs_maximal key l : adjacent_differ (runs key l).*1.
Proof.
  induction l as [|x l IH]; simpl; [done|].
  destruct (runs key l) as [|[k r] rs]; [done|].
  destruct (decide (key x = k)) as [Hk|Hk]; [done|].
  simpl. split; [done|]. exact IH.
Qed.

Lemma runs_keys key x l :
  (runs key (x :: l)).*1 = key x :: opened (key x) (key <$> l).
Proof.
  revert x. induction l as [|y l IH]; intros x; [done|].
  specialize (IH y).
  change (runs key (x :: y :: l)) with
    (match runs key (y :: l) with
     | (k, r) :: rs =>
         if decide (key x = k) then (k, x :: r) :: rs
         else (key x, [x]) :: (k, r) :: rs
     | [] => [(key x, [x])]
     end).
  destruct (runs key (y :: l)) as [|[k r] rs]; [done|].
  injection IH as -> Hrs. simpl.
  destruct (decide (key x = key y)) as [Heq|Hne]; simpl.
  - rewrite decide_False by (by intros Hc; apply Hc). by rewrite Hrs, Heq.
  - rewrite decide_True by (by intros Hc; apply Hne). by rewrite Hrs.
Qed.

(** ** The first event opens a domain *)

Lemma first_domain events x l fr :
  for_each (loop_body events) initial_frame (x :: l) = Ok fr →
  domain_of x ≠ "".
Proof.
  simpl. destruct (loop_body events initial_frame x) as [fr1|] eqn:Hb; [|done].
  intros _ Hd.
  destruct (loop_body_models _ _ _ _ _ (models_initial events) Hb)
    as (g & Hm & Hn & Hl & _).
  simpl in Hn, Hl.
  rewrite decide_False in Hn by (by intros Hc; apply Hc).
  apply fmap_nil_inv in Hn.
  pose proof (m_link _ _ _ Hm) as Hlink. rewrite Hn in Hlink.
  symmetry in Hlink. apply fmap_nil_inv in Hlink.
  unfold leaves in Hl. by rewrite Hlink in Hl.
Qed.

Lemma run_layout self out h :
  run self = Ok (out, h) →
  ∃ fr g, models (events_of self) fr g
          ∧ heap fr = h ∧ dom_addrs g = out
          ∧ gd_name <$> g_domains g
            = (runs domain_of (sorted (events_of self))).*1
          ∧ (leaves g).*2 = sorted (events_of self)
          ∧ Forall four_segments (sorted (events_of self)).
Proof.
  intros Hr. change (iter_nodes_of (events_of self) = Ok (out, h)) in Hr.
  destruct (iter_nodes_of_models _ _ _ Hr) as (fr & g & Hm & Hh & Ho & Hn & Hl & H4).
  exists fr, g. split; [done|]. split; [done|]. split; [done|].
  split; [|done]. rewrite Hn.
  unfold iter_nodes_of in Hr.
  destruct (sorted (events_of self)) as [|x l] eqn:Hs; [done|].
  destruct (for_each (loop_body (events_of self)) initial_frame (x :: l))
    as [fr1|] eqn:Hf; [|done].
  apply first_domain in Hf.
  rewrite runs_keys. simpl. by rewrite decide_True.
Qed.

(** ** The sample records *)

Ltac complete_by_lookup :=
  let k := fresh "k" in
  let Hk := fresh "Hk" in
  intros k Hk;
  repeat (apply elem_of_cons in Hk as [->|Hk]; [by vm_compute; eexists|]);
  by apply elem_of_nil in Hk.

Lemma enrollment_complete : complete enrollment.
Proof. complete_by_lookup. Qed.

Lemma enrollment_keyed_complete : complete enrollment_keyed.
Proof. complete_by_lookup. Qed.

Lemma one_event_well_formed et event :
  events_of (serving one_event) !! et = Some event →
  complete event ∧ well_formed et.
Proof.
  unfold events_of, find_events, serving, one_event. simpl.
  intros [<- <-]%lookup_singleton_Some.
  split; [apply enrollment_keyed_complete|].
  unfold well_formed, four_segments. vm_compute.
  split; [lia|]. by split.
Qed.

(** ** Which exception, and when *)

Lemma open_groups_short event_type fr :
  ¬ four_segments event_type → open_groups event_type fr = Raise IndexError.
Proof.
  unfold four_segments, open_groups, index. intros H4.
  destruct (split "." event_type !! 2) as [d|] eqn:Hd; [|done]. simpl.
  destruct (split "." event_type !! 3) as [s|] eqn:Hs; [|done].
  apply lookup_lt_Some in Hs. lia.
Qed.

Lemma loop_body_short events fr event_type :
  ¬ four_segments event_type →
  loop_body events fr event_type = Raise IndexError.
Proof. intros H4. unfold loop_body. by rewrite open_groups_short. Qed.

Lemma four_segments_dec event_type :
  four_segments event_type ∨ ¬ four_segments event_type.
Proof. unfold four_segments. lia. Qed.

Lemma complete_dec event : complete event ∨ ¬ complete event.
Proof.
  destruct (expected_leaf "" event) as [e|] eqn:He.
  - left. apply (expected_leaf_complete ""). by exists e.
  - right. rewrite (expected_leaf_complete ""), He. by intros [? ?].
Qed.

(** Once both headers are in place the grouping lines always pass. *)
Lemma open_groups_with_headers event_type fr :
  four_segments event_type →
  domain_header fr ≠ None → subject_header fr ≠ None →
  ∃ fr1, open_groups event_type fr = Ok fr1
         ∧ domain_header fr1 ≠ None ∧ subject_header fr1 ≠ None.
Proof.
  intros H4 Hd Hs.
  destruct (four_segments_lookup _ H4) as [Hl2 Hl3].
  unfold open_groups, index. rewrite Hl2, Hl3. simpl.
  unfold open_domain.
  destruct (decide (domain_of event_type ≠ current_domain fr)); simpl;
    unfold open_subject; simpl;
    destruct (decide (subject_of event_type ≠ _)); simpl;
    try (destruct (domain_header fr) eqn:Hdh; [|done]); simpl;
    eexists; (split; [done|]); simpl; by rewrite ?Hdh.
Qed.

Lemma loop_body_with_headers events fr event_type event :
  events !! event_type = Some event →
  four_segments event_type →
  domain_header fr ≠ None → subject_header fr ≠ None →
  (complete event →
   ∃ fr', loop_body events fr event_type = Ok fr'
          ∧ domain_header fr' ≠ None ∧ subject_header fr' ≠ None)
  ∧ (¬ complete event →
     ∃ k, k ∈ required_fields ∧ event !! k = None
          ∧ loop_body events fr event_type = Raise (KeyError k)).
Proof.
  intros Hev H4 Hd Hs.
  destruct (open_groups_with_headers _ _ H4 Hd Hs) as (fr1 & Hg & Hd1 & Hs1).
  split; [|by apply (loop_body_missing_field _ _ fr1)].
  intros [e He]%(expected_leaf_complete event_type).
  unfold loop_body, getitem. rewrite Hg. simpl. rewrite Hev. simpl.
  rewrite (event_section_expected _ _ _ _ He). simpl.
  destruct (subject_header fr1) as [s|] eqn:Hsh; [|done].
  simpl. eexists. split; [done|]. simpl. by rewrite ?Hsh.
Qed.

(** The grouping lines on the first event. *)
Lemma open_groups_initial event_type :
  four_segments event_type →
  (domain_of event_type = "" ∧ subject_of event_type ≠ ""
   ∧ open_groups event_type initial_frame = Raise TypeError)
  ∨ (¬ (domain_of event_type = "" ∧ subject_of event_type ≠ "")
     ∧ ∃ fr1, open_groups event_type initial_frame = Ok fr1
              ∧ (subject_header fr1 = None ↔ subject_of event_type = "")).
Proof.
  intros H4. destruct (four_segments_lookup _ H4) as [Hl2 Hl3].
  unfold open_groups, index. rewrite Hl2, Hl3. simpl.
  unfold open_domain, open_subject. simpl.
  destruct (decide (domain_of event_type ≠ "")) as [Hd|Hd%dec_stable]; simpl;
    (destruct (decide (subject_of event_type ≠ "")) as [Hs|Hs%dec_stable];
     simpl).
  - right. split; [tauto|]. eexists. split; [done|]. simpl. split; done.
  - right. split; [tauto|]. eexists. split; [done|]. by simpl.
  - left. done.
  - right. split; [tauto|]. eexists. split; [done|]. by simpl.
Qed.

(** The first iteration, case by case. *)
Lemma loop_body_initial events event_type event :
  events !! event_type = Some event →
  four_segments event_type →
  match loop_body events initial_frame event_type with
  | Ok fr' =>
      domain_of event_type ≠ "" ∧ subject_of event_type ≠ ""
      ∧ complete event
      ∧ domain_header fr' ≠ None ∧ subject_header fr' ≠ None
  | Raise IndexError => False
  | Raise (KeyError k) =>
      ¬ (domain_of event_type = "" ∧ subject_of event_type ≠ "")
      ∧ k ∈ required_fields ∧ event !! k = None
  | Raise TypeError =>
      (domain_of event_type = "" ∧ subject_of event_type ≠ "")
      ∨ (subject_of event_type = "" ∧ complete event)
  end.
Proof.
  intros Hev H4.
  destruct (open_groups_initial _ H4)
    as [(Hd & Hs & Hg)|(Hn & fr1 & Hg & Hsh)].
  { unfold loop_body. rewrite Hg. simpl. by left. }
  destruct (complete_dec event) as [Hc|Hc].
  2:{ destruct (loop_body_missing_field _ _ _ _ _ Hev Hg Hc)
        as (k & Hk & Hnone & ->). done. }
  destruct (decide (subject_of event_type = "")) as [Hs|Hs].
  - pose proof Hc as [e He]%(expected_leaf_complete event_type).
    unfold loop_body, getitem. rewrite Hg. simpl. rewrite Hev. simpl.
    rewrite (event_section_expected _ _ _ _ He). simpl.
    rewrite (proj2 Hsh Hs). simpl. by right.
  - assert (Hd : domain_of event_type ≠ "") by (intros Hd; by apply Hn).
    destruct (loop_body_returns events initial_frame event_type event)
      as (fr' & -> & Hd' & Hs'); done.
Qed.

(** The iterations after the first: no [TypeError] any more. *)
Lemma for_each_with_headers events l : ∀ fr,
  domain_header fr ≠ None → subject_header fr ≠ None →
  Forall (λ et, is_Some (events !! et)) l →
  match for_each (loop_body events) fr l with
  | Ok _ =>
      Forall (λ et, four_segments et
                    ∧ ∃ event, events !! et = Some event ∧ complete event) l
  | Raise IndexError => Exists (λ et, ¬ four_segments et) l
  | Raise (KeyError k) =>
      Exists (λ et, ∃ event, events !! et = Some event
                             ∧ k ∈ required_fields ∧ event !! k = None) l
  | Raise TypeError => False
  end.
Proof.
  induction l as [|x l IH]; intros fr Hd Hs Hall; simpl; [constructor|].
  apply Forall_cons in Hall as [[event Hev] Hall].
  destruct (four_segments_dec x) as [H4|H4].
  2:{ rewrite (loop_body_short _ _ _ H4). simpl. by constructor. }
  destruct (loop_body_with_headers _ _ _ _ Hev H4 Hd Hs) as [Hok Hbad].
  destruct (complete_dec event) as [Hc|Hc].
  - destruct (Hok Hc) as (fr' & -> & Hd' & Hs'). simpl.
    specialize (IH fr' Hd' Hs' Hall).
    destruct (for_each (loop_body events) fr' l) as [?|[|k|]]; try done.
    + constructor; [|done]. split; [done|]. by exists event.
    + by apply Exists_cons_tl.
    + by apply Exists_cons_tl.
  - destruct (Hbad Hc) as (k & Hk & Hnone & ->). simpl.
    apply Exists_cons_hd. by exists event.
Qed.

Lemma complete_lookup event k :
  complete event → k ∈ required_fields → event !! k ≠ None.
Proof. intros Hc Hk Hnone. destruct (Hc k Hk) as [v Hv]. congruence. Qed.

Lemma run_for_each self :
  run self
  = fr ← for_each (loop_body (events_of self)) initial_frame
           (sorted (events_of self));
    Ok (yield_header fr, heap fr).
Proof. reflexivity. Qed.

(** Every outcome of [run] with what it says about the mapping. *)
Lemma run_outcome self :
  match run self with
  | Ok _ =>
      (∀ et event, events_of self !! et = Some event →
                   four_segments et ∧ complete event)
      ∧ (∀ x, head (sorted (events_of self)) = Some x →
              domain_of x ≠ "" ∧ subject_of x ≠ "")
  | Raise IndexError =>
      ∃ et, is_Some (events_of self !! et) ∧ ¬ four_segments et
  | Raise (KeyError k) =>
      ∃ et event, events_of self !! et = Some event
                  ∧ k ∈ required_fields ∧ event !! k = None
  | Raise TypeError =>
      ∃ x event, head (sorted (events_of self)) = Some x
                 ∧ events_of self !! x = Some event
                 ∧ four_segments x
                 ∧ ((domain_of x = "" ∧ subject_of x ≠ "")
                    ∨ (subject_of x = "" ∧ complete event))
  end.
Proof.
  rewrite run_for_each.
  pose proof (elem_of_sorted (events_of self)) as Hkeys.
  destruct (sorted (events_of self)) as [|x l] eqn:Hs; simpl.
  { split; [|done]. intros et event Hev.
    assert (Hin : et ∈ @nil string) by (apply Hkeys; by exists event).
    by apply elem_of_nil in Hin. }
  destruct (proj1 (Hkeys x)) as [event Hev]; [apply list_elem_of_here|].
  destruct (four_segments_dec x) as [H4|H4].
  2:{ rewrite (loop_body_short _ _ _ H4). simpl. exists x. by split. }
  pose proof (loop_body_initial _ _ _ Hev H4) as Hfirst.
  destruct (loop_body (events_of self) initial_frame x) as [fr1|[|k|]];
    simpl; [|done| |].
  - destruct Hfirst as (Hd & Hsu & Hc & Hd1 & Hs1).
    assert (Hall : Forall (λ et, is_Some (events_of self !! et)) l).
    { apply Forall_forall. intros et Het. apply Hkeys.
      by apply list_elem_of_further. }
    pose proof (for_each_with_headers _ _ _ Hd1 Hs1 Hall) as Hrest.
    destruct (for_each (loop_body (events_of self)) fr1 l) as [fr2|[|k|]];
      simpl; [| | |done].
    + split; [|by intros ? [= <-]].
      intros et event' Hev'.
      assert (Hin : et ∈ x :: l) by (apply Hkeys; by exists event').
      apply elem_of_cons in Hin as [->|Hin].
      * split; [done|]. by simplify_eq.
      * destruct (proj1 (Forall_forall _ _) Hrest et Hin)
          as (H4' & event'' & Hev'' & Hc'').
        split; [done|]. by simplify_eq.
    + apply Exists_exists in Hrest as (et & Hin & H4').
      exists et. split; [|done]. apply Hkeys. by apply list_elem_of_further.
    + apply Exists_exists in Hrest as (et & Hin & event' & Hrest).
      by exists et, event'.
  - destruct Hfirst as (_ & Hk & Hnone). by exists x, event.
  - by exists x, event.
Qed.

(** * The claims *)

(** C1. The loop opens a subject section only when the fourth segment
    differs from the previous one. In [shared_subject] the domain changes
    from [content] to [learning] and the subject stays [course]: the
    section of the [learning] domain is returned without any subsection,
    and the section of the [learning] event is filed under the [course]
    subject of the [content] domain. *)
Theorem C1_subject_kept_across_domains :
  ∃ h,
    run (serving shared_subject) = Ok ([0; 3], h)
    ∧ sorted shared_subject
      = ["org.openedx.content.course.created.v1";
         "org.openedx.learning.course.created.v1"]
    ∧ section_ids h 0 = Some [domain_id "content"]
    ∧ subsections h 0 = [1]
    ∧ section_ids h 1 = Some [subject_id "course"]
    ∧ subsections h 1 = [2; 4]
    ∧ section_ids h 3 = Some [domain_id "learning"]
    ∧ subsections h 3 = []
    ∧ section_title h 4 = Some "org.openedx.learning.course.created.v1".
Proof. eexists. repeat split; vm_compute; reflexivity. Qed.

(** C2, as stated, fails twice. Every record of [short_identifier] has the
    required fields, and [run] raises [IndexError] at the subscript for
    the fourth segment, which the identifier does not have. Every record of
    [empty_domain] has the required fields, and [run] raises [TypeError] at
    line 93, where the subject section of the first event is added to a
    domain header that is still [None]. *)
Lemma C2_identifiers_can_fail :
  ((∀ et event,
      events_of (serving short_identifier) !! et = Some event →
      complete event)
   ∧ run (serving short_identifier) = Raise IndexError)
  ∧ ((∀ et event,
        events_of (serving empty_domain) !! et = Some event →
        complete event)
     ∧ run (serving empty_domain) = Raise TypeError).
Proof.
  split; (split; [|vm_compute; reflexivity]).
  - unfold events_of, find_events, serving, short_identifier. simpl.
    intros et event [<- <-]%lookup_singleton_Some.
    apply enrollment_complete.
  - unfold events_of, find_events, serving, empty_domain. simpl.
    intros et event [<- <-]%lookup_singleton_Some.
    apply enrollment_complete.
Qed.

(** C2, amended. When every record has the required fields, every
    identifier has at least four segments, and the third and the fourth
    segment of the smallest identifier are not empty, [run] returns. *)
Theorem C2_returns_on_well_formed self :
  (∀ et event,
     events_of self !! et = Some event → four_segments et ∧ complete event) →
  (∀ x, head (sorted (events_of self)) = Some x →
        domain_of x ≠ "" ∧ subject_of x ≠ "") →
  returns (run self).
Proof.
  intros Hall Hfirst. pose proof (run_outcome self) as Ho.
  destruct (run self) as [r|[|k|]]; [by exists r|exfalso..].
  - destruct Ho as (et & [event Hev] & H4). by apply H4, (Hall et event).
  - destruct Ho as (et & event & Hev & Hk & Hnone).
    by apply (complete_lookup event k); [apply (Hall et event)|..].
  - destruct Ho as (x & event & Hx & Hev & H4 & Hcase).
    destruct (Hfirst x Hx) as [Hd Hs]. tauto.
Qed.

(** In [later_empty_domain] the second identifier has an empty third
    segment; the first has none, and [run] returns. *)
Lemma C2_returns_on_well_formed_witness :
  returns (run (serving later_empty_domain))
  ∧ domain_of "org.zulu..course.created.v1" = "".
Proof.
  split; [|vm_compute; reflexivity].
  apply C2_returns_on_well_formed.
  - unfold events_of, find_events, serving, later_empty_domain. simpl.
    intros et event [[<- <-]|[_ [<- <-]%lookup_singleton_Some]]%lookup_insert_Some.
    + split; [unfold four_segments; vm_compute; lia|].
      apply enrollment_complete.
    + split; [unfold four_segments; vm_compute; lia|].
      apply enrollment_complete.
  - intros x Hx. vm_compute in Hx. injection Hx as <-. by vm_compute.
Defined.

(** C3. When [run] returns, the titles of the event sections of the
    returned tree, read in document order, are the event types of the
    mapping in strictly ascending lexicographic order. *)
Theorem C3_leaves_in_sorted_order self out h :
  run self = Ok (out, h) →
  section_title h <$> level2 h out = Some <$> sorted (events_of self)
  ∧ StronglySorted (strict String.le) (sorted (events_of self))
  ∧ ∀ et, et ∈ sorted (events_of self) ↔ is_Some (events_of self !! et).
Proof.
  intros Hr.
  destruct (run_layout _ _ _ Hr) as (fr & g & Hm & <- & <- & _ & Hl & _).
  split; [|split; [apply sorted_strict|apply elem_of_sorted]].
  rewrite (level2_models _ _ _ Hm), <- Hl. unfold leaf_addrs.
  rewrite <- !list_fmap_compose.
  apply Forall_fmap_ext_1, Forall_forall. intros [a et] Hin. simpl.
  destruct (m_leaves _ _ _ Hm _ Hin) as (event & e & _ & He & Ha).
  simpl in He, Ha. unfold section_title. rewrite Ha. simpl.
  apply expected_leaf_title in He as [_ [cs ->]]. done.
Qed.

(** On the three events of [split_domain]. *)
Lemma C3_leaves_in_sorted_order_witness :
  ∃ out h,
    run (serving split_domain) = Ok (out, h)
    ∧ section_title h <$> level2 h out
      = [Some "org.a.learning.course.v1";
         Some "org.b.content.course.v1";
         Some "org.c.learning.course.v1"].
Proof.
  eexists _, _. split; [vm_compute; reflexivity|].
  rewrite (proj1 (C3_leaves_in_sorted_order (serving split_domain) _ _
                    ltac:(vm_compute; reflexivity))).
  vm_compute. reflexivity.
Defined.

(** C4. Building the section of an event whose record lacks one of the
    required fields raises [KeyError] for a required field the record
    lacks; a record that has the required fields and lacks the key field is
    rendered without an exception. *)
Theorem C4_missing_field event_type event h :
  (¬ complete event →
   ∃ k, k ∈ required_fields ∧ event !! k = None
        ∧ event_section event_type event h = Raise (KeyError k))
  ∧ (complete event → event !! EVENT_KEY_FIELD = None →
     returns (event_section event_type event h)).
Proof.
  split; [apply event_section_incomplete|].
  intros [e He]%(expected_leaf_complete event_type) _.
  eexists. by apply event_section_expected.
Qed.

Lemma C4_missing_field_witness :
  (∃ k, event_section "org.openedx.learning.course.v1"
          (delete "filename" enrollment) [] = Raise (KeyError k))
  ∧ returns (event_section "org.openedx.learning.course.v1" enrollment []).
Proof.
  destruct (C4_missing_field "org.openedx.learning.course.v1"
              (delete "filename" enrollment) []) as [Hmissing _].
  destruct (C4_missing_field "org.openedx.learning.course.v1"
              enrollment []) as [_ Hoptional].
  split.
  - destruct Hmissing as (k & _ & _ & Hk); [|by exists k].
    intros Hc. destruct (Hc "filename") as [v Hv]; [in_list|].
    vm_compute in Hv. discriminate.
  - apply Hoptional; [apply enrollment_complete|]. vm_compute. reflexivity.
Defined.

(** C5. When [run] returns, the event sections of the returned tree, read
    in document order, are the leaves of the events of the mapping, one for
    each event and no two the same section: each has the identifier
    [openedxevent-<event_type>], the event type as its title, and the
    description, signal name, key field when there is one, event data and
    location paragraphs, in this order. *)
Theorem C5_one_leaf_per_event self out h :
  run self = Ok (out, h) →
  Forall2 (λ a et, ∃ event, events_of self !! et = Some event
                            ∧ is_Some (h !! a)
                            ∧ h !! a = expected_leaf et event)
    (level2 h out) (sorted (events_of self))
  ∧ NoDup (level2 h out)
  ∧ NoDup (sorted (events_of self))
  ∧ ∀ et, et ∈ sorted (events_of self) ↔ is_Some (events_of self !! et).
Proof.
  intros Hr.
  destruct (run_layout _ _ _ Hr) as (fr & g & Hm & <- & <- & _ & Hl & _).
  split; [|split; [|split; [apply sorted_NoDup|apply elem_of_sorted]]].
  - rewrite (level2_models _ _ _ Hm), <- Hl. unfold leaf_addrs.
    apply Forall2_fmap, Forall_Forall2_diag, Forall_forall.
    intros [a et] Hin. simpl.
    destruct (m_leaves _ _ _ Hm _ Hin) as (event & e & Hev & He & Ha).
    simpl in *. exists event. rewrite Ha, He. by split; [|split; [eexists|]].
  - rewrite (level2_models _ _ _ Hm).
    pose proof (m_nodup _ _ _ Hm) as Hnd. unfold all_addrs in Hnd.
    apply NoDup_app in Hnd as (_ & _ & Hnd).
    by apply NoDup_app in Hnd as (_ & _ & Hnd).
Qed.

Lemma C5_one_leaf_per_event_witness :
  ∃ out h,
    run (serving one_event) = Ok (out, h)
    ∧ NoDup (level2 h out)
    ∧ h !! 2%nat
      = expected_leaf "org.openedx.learning.course.enrollment.created.v1"
          enrollment_keyed.
Proof.
  eexists _, _. split; [vm_compute; reflexivity|].
  split; [|vm_compute; reflexivity].
  refine (proj1 (proj2 (C5_one_leaf_per_event (serving one_event) _ _ _))).
  vm_compute. reflexivity.
Defined.

(** C6, as stated, fails: [setup] registers three configuration values,
    not two. *)
Lemma C6_not_two_config_values :
  length (config_values (setup (λ _, "/srv/docs") []).1) ≠ 2%nat.
Proof. vm_compute. lia. Qed.

(** C6, amended. [setup] adds four registrations to the application and
    nothing else: the three configuration values
    [openedxevents_source_path] (default: the absolute path of [..]),
    [openedxevents_repo_url] (default: the empty string) and
    [openedxevents_repo_version] (default: [main]), and the one directive
    [openedxevents]. *)
Theorem C6_three_config_values_one_directive abspath app :
  ∃ new,
    (setup abspath app).1 = app ++ new
    ∧ length new = 4%nat
    ∧ config_values new
      = [("openedxevents_source_path", abspath "..");
         ("openedxevents_repo_url", "");
         ("openedxevents_repo_version", "main")]
    ∧ directive_names new = ["openedxevents"].
Proof.
  exists [config_value "openedxevents_source_path" (abspath "..") "env";
          config_value "openedxevents_repo_url" "" "env";
          config_value "openedxevents_repo_version" "main" "env";
          directive_name "openedxevents" OpenedxEvents].
  split; [|by repeat split].
  unfold setup, add_config_value, add_directive. simpl.
  by rewrite <- !app_assoc.
Qed.

(** C7. When [run] returns, the returned nodes are domain sections, the
    sections below them are subject sections, the sections below those are
    event sections without sections of their own, no section occurs twice,
    and every section the directive has built is at one of these three
    levels of the returned tree. *)
Theorem C7_nested_section_tree self out h :
  run self = Ok (out, h) →
  Forall (is_domain_section h) out
  ∧ Forall (is_subject_section h) (level1 h out)
  ∧ Forall (λ a, is_event_section (events_of self) h a
                 ∧ subsections h a = []) (level2 h out)
  ∧ NoDup (out ++ level1 h out ++ level2 h out)
  ∧ ∀ a, (a < length h)%nat ↔ a ∈ out ++ level1 h out ++ level2 h out.
Proof.
  intros Hr.
  destruct (run_layout _ _ _ Hr) as (fr & g & Hm & <- & <- & _ & _ & _).
  rewrite (level1_models _ _ _ Hm), (level2_models _ _ _ Hm).
  split; [|split; [|split; [|split]]].
  - apply Forall_fmap, Forall_forall. intros d Hd. simpl.
    exists (gd_name d), (gd_subs d). by apply (m_domains _ _ _ Hm).
  - apply Forall_fmap, Forall_forall. intros s Hs. simpl.
    exists (gs_name s), (gs_leaves s).*1. by apply (m_subjects _ _ _ Hm).
  - apply Forall_fmap, Forall_forall. intros [a et] Hin. simpl.
    destruct (m_leaves _ _ _ Hm _ Hin) as (event & e & Hev & He & Ha).
    simpl in *. split.
    + exists et, event. rewrite Ha, He. by split; [|split; [eexists|]].
    + unfold subsections. rewrite Ha. by apply expected_leaf_no_refs in He.
  - apply (m_nodup _ _ _ Hm).
  - apply (m_alloc _ _ _ Hm).
Qed.

Lemma C7_nested_section_tree_witness :
  ∃ out h,
    run (serving shared_subject) = Ok (out, h)
    ∧ Forall (is_domain_section h) out
    ∧ Forall (is_subject_section h) (level1 h out).
Proof.
  eexists _, _. split; [vm_compute; reflexivity|].
  pose proof (C7_nested_section_tree (serving shared_subject) _ _
                ltac:(vm_compute; reflexivity)) as (H1 & H2 & _).
  exact (conj H1 H2).
Defined.

(** C8. With an empty mapping [run] returns the empty list and builds no
    section. *)
Theorem C8_empty_mapping self :
  events_of self = ∅ → run self = Ok ([], []).
Proof.
  intros He. unfold run, iter_nodes. fold (events_of self). rewrite He.
  unfold iter_nodes_of. by rewrite sorted_empty.
Qed.

Lemma C8_empty_mapping_witness : run (serving ∅) = Ok ([], []).
Proof. apply C8_empty_mapping. reflexivity. Defined.

Lemma key_field_paragraph_iff event_type event e :
  expected_leaf event_type event = Some e →
  has_key_field_paragraph e
  ↔ ∃ k, event !! EVENT_KEY_FIELD = Some k ∧ truthy k = true.
Proof.
  intros He. unfold expected_leaf in He.
  destruct (event !! EVENT_NAME); [|done].
  destruct (event !! EVENT_DATA); [|done].
  destruct (event !! EVENT_DESCRIPTION); [|done].
  destruct (event !! "filename"); [|done].
  destruct (event !! "line_number"); [|done].
  simpl in He. injection He as <-.
  unfold has_key_field_paragraph, key_field_part. simpl. split.
  - intros [cs Hin].
    repeat (apply elem_of_cons in Hin as [Hin|Hin];
            [by cbv [String.append] in Hin|]).
    destruct (event !! EVENT_KEY_FIELD) as [k|]; simpl in Hin.
    + destruct (truthy k) eqn:Ht; simpl in Hin; [by exists k|].
      repeat (apply elem_of_cons in Hin as [Hin|Hin];
              [by cbv [String.append] in Hin|]).
      by apply elem_of_nil in Hin.
    + repeat (apply elem_of_cons in Hin as [Hin|Hin];
              [by cbv [String.append] in Hin|]).
      by apply elem_of_nil in Hin.
  - intros (k & -> & ->). exists [literal k]. simpl.
    unfold key_field_paragraph. in_list.
Qed.

(** C9. For a record with the required fields the section of the event is
    built, and it holds the paragraph of the key field exactly when the
    record has a key field whose value is true (for a string: not empty);
    whenever a section is built it is in the store and this holds of it;
    and a record whose key field is the empty string gets the section of
    the record without the field. *)
Theorem C9_key_field_paragraph event_type event h :
  (complete event →
   ∃ a h' e,
     event_section event_type event h = Ok (a, h')
     ∧ h' !! a = Some e
     ∧ (has_key_field_paragraph e
        ↔ ∃ k, event !! EVENT_KEY_FIELD = Some k ∧ truthy k = true))
  ∧ (∀ a h',
       event_section event_type event h = Ok (a, h') →
       ∃ e, h' !! a = Some e
            ∧ (has_key_field_paragraph e
               ↔ ∃ k, event !! EVENT_KEY_FIELD = Some k ∧ truthy k = true))
  ∧ event_section event_type (<[EVENT_KEY_FIELD := PStr ""]> event) h
    = event_section event_type (delete EVENT_KEY_FIELD event) h.
Proof.
  split; [|split].
  - intros [e He]%(expected_leaf_complete event_type).
    exists (length h), (h ++ [e]), e.
    split; [by apply event_section_expected|].
    split; [apply lookup_fresh|]. by apply (key_field_paragraph_iff event_type).
  - intros a h' (e & He & -> & ->)%event_section_Ok.
    exists e. split; [apply lookup_fresh|].
    by apply (key_field_paragraph_iff event_type).
  - unfold event_section, getitem, dict_get,
      EVENT_KEY_FIELD.
    assert (Hother : ∀ k, k ≠ ".. event_key_field:" →
              <[".. event_key_field:" := PStr ""]> event !! k
              = delete ".. event_key_field:" event !! k).
    { intros k Hk. by rewrite lookup_insert_ne, lookup_delete_ne. }
    rewrite (Hother ".. event_name:"), (Hother ".. event_data:"),
      (Hother ".. event_description:"), (Hother "filename"),
      (Hother "line_number") by done.
    by rewrite lookup_insert_eq, lookup_delete_eq.
Qed.

(** The section of a record with a key field holds the paragraph; the
    section of a record whose key field is the empty string does not. *)
Lemma C9_key_field_paragraph_witness :
  (∃ a h' e,
     event_section "org.openedx.learning.course.v1" enrollment_keyed []
     = Ok (a, h')
     ∧ h' !! a = Some e ∧ has_key_field_paragraph e)
  ∧ (∃ a h' e,
       event_section "org.openedx.learning.course.v1"
         (<[EVENT_KEY_FIELD := PStr ""]> enrollment) []
       = Ok (a, h')
       ∧ h' !! a = Some e ∧ ¬ has_key_field_paragraph e)
  ∧ event_section "org.openedx.learning.course.v1"
      (<[EVENT_KEY_FIELD := PStr ""]> enrollment) []
    = event_section "org.openedx.learning.course.v1"
        (delete EVENT_KEY_FIELD enrollment) [].
Proof.
  split; [|split].
  - destruct (proj1 (C9_key_field_paragraph "org.openedx.learning.course.v1"
                       enrollment_keyed []) enrollment_keyed_complete)
      as (a & h' & e & Hr & Ha & Hiff).
    exists a, h', e. split; [done|]. split; [done|].
    apply Hiff. eexists. split; vm_compute; reflexivity.
  - destruct (proj1 (C9_key_field_paragraph "org.openedx.learning.course.v1"
                       (<[EVENT_KEY_FIELD := PStr ""]> enrollment) [])
                ltac:(complete_by_lookup))
      as (a & h' & e & Hr & Ha & Hiff).
    exists a, h', e. split; [done|]. split; [done|].
    intros (k & Hk & Ht)%Hiff. vm_compute in Hk. injection Hk as <-.
    vm_compute in Ht. discriminate Ht.
  - apply C9_key_field_paragraph.
Defined.

(** C10. When [run] returns, the identifiers of the returned sections are,
    in order, the domain identifiers of the maximal runs of consecutive
    event types with the same third segment in the sorted order, one section
    for each run, no section returned twice. *)
Theorem C10_one_domain_section_per_run self out h :
  run self = Ok (out, h) →
  section_ids h <$> out
  = (λ kr, Some [domain_id kr.1])
      <$> runs domain_of (sorted (events_of self))
  ∧ length out = length (runs domain_of (sorted (events_of self)))
  ∧ NoDup out.
Proof.
  intros Hr.
  destruct (run_layout _ _ _ Hr) as (fr & g & Hm & <- & <- & Hn & _ & _).
  assert (Hids : section_ids (heap fr) <$> dom_addrs g
                 = (λ kr, Some [domain_id kr.1])
                     <$> runs domain_of (sorted (events_of self))).
  { transitivity ((λ k, Some [domain_id k]) <$> (gd_name <$> g_domains g)).
    - unfold dom_addrs. rewrite <- !list_fmap_compose.
      apply Forall_fmap_ext_1, Forall_forall. intros d Hd. simpl. unfold section_ids.
      by rewrite (m_domains _ _ _ Hm d Hd).
    - rewrite Hn. by rewrite <- list_fmap_compose. }
  split; [done|]. split.
  - apply (f_equal length) in Hids. by rewrite !length_fmap in Hids.
  - pose proof (m_nodup _ _ _ Hm) as Hnd. unfold all_addrs in Hnd.
    by apply NoDup_app in Hnd as (Hnd & _ & _).
Qed.

(** The events of the [learning] domain are not contiguous in the sorted
    order of [split_domain]: two returned sections carry its identifier. *)
Lemma C10_one_domain_section_per_run_witness :
  ∃ out h,
    run (serving split_domain) = Ok (out, h)
    ∧ section_ids h <$> out
      = [Some ["openedxevent-domain-learning"];
         Some ["openedxevent-domain-content"];
         Some ["openedxevent-domain-learning"]].
Proof.
  eexists _, _. split; [vm_compute; reflexivity|].
  rewrite (proj1 (C10_one_domain_section_per_run (serving split_domain) _ _
                    ltac:(vm_compute; reflexivity))).
  vm_compute. reflexivity.
Defined.

(** * Further properties *)

(** ** When [run] returns and what it raises *)

(** [run] returns exactly when every identifier has four segments, every
    record has the required fields, and the third and fourth segments of
    the smallest identifier are not empty. *)
Theorem run_returns_iff self :
  returns (run self)
  ↔ (∀ et event, events_of self !! et = Some event →
                 four_segments et ∧ complete event)
    ∧ (∀ x, head (sorted (events_of self)) = Some x →
            domain_of x ≠ "" ∧ subject_of x ≠ "").
Proof.
  pose proof (run_outcome self) as Ho. split.
  - intros [r Hr]. by rewrite Hr in Ho.
  - intros [Hall Hfirst].
    destruct (run self) as [r|[|k|]]; [by exists r|exfalso..].
    + destruct Ho as (et & [event Hev] & H4). by apply H4, (Hall et event).
    + destruct Ho as (et & event & Hev & Hk & Hnone).
      by apply (complete_lookup event k); [apply (Hall et event)|..].
    + destruct Ho as (x & event & Hx & Hev & H4 & Hcase).
      destruct (Hfirst x Hx) as [Hd Hs]. tauto.
Qed.

Lemma run_returns_iff_witness : returns (run (serving one_event)).
Proof.
  apply (proj2 (run_returns_iff (serving one_event))). split.
  - intros et event Hev.
    destruct (one_event_well_formed et event Hev) as (Hc & H4 & _).
    by split.
  - intros x Hx. vm_compute in Hx. injection Hx as <-. by vm_compute.
Defined.

(** [run] raises [IndexError] only when some identifier of the mapping has
    fewer than four segments. *)
Theorem run_IndexError_cause self :
  run self = Raise IndexError →
  ∃ et, is_Some (events_of self !! et) ∧ ¬ four_segments et.
Proof. intros Hr. pose proof (run_outcome self) as Ho. by rewrite Hr in Ho. Qed.

Lemma run_IndexError_cause_witness :
  ∃ et, is_Some (events_of (serving short_identifier) !! et)
        ∧ ¬ four_segments et.
Proof.
  apply run_IndexError_cause. vm_compute. reflexivity.
Defined.

(** [run] raises [KeyError] only for a required field that some record of
    the mapping lacks. *)
Theorem run_KeyError_cause self k :
  run self = Raise (KeyError k) →
  ∃ et event, events_of self !! et = Some event
              ∧ k ∈ required_fields ∧ event !! k = None.
Proof. intros Hr. pose proof (run_outcome self) as Ho. by rewrite Hr in Ho. Qed.

Lemma run_KeyError_cause_witness :
  ∃ et event, events_of (serving no_filename) !! et = Some event
              ∧ "filename" ∈ required_fields ∧ event !! "filename" = None.
Proof.
  apply run_KeyError_cause. vm_compute. reflexivity.
Defined.

(** [run] raises [TypeError] exactly when the smallest identifier has four
    segments and either an empty third segment with a fourth that is not
    empty, or an empty fourth segment with a record that has the required
    fields. *)
Theorem run_TypeError_iff self :
  run self = Raise TypeError
  ↔ ∃ x event, head (sorted (events_of self)) = Some x
               ∧ events_of self !! x = Some event
               ∧ four_segments x
               ∧ ((domain_of x = "" ∧ subject_of x ≠ "")
                  ∨ (subject_of x = "" ∧ complete event)).
Proof.
  split.
  - intros Hr. pose proof (run_outcome self) as Ho. by rewrite Hr in Ho.
  - intros (x & event & Hx & Hev & H4 & Hcase).
    rewrite run_for_each.
    destruct (sorted (events_of self)) as [|y l]; [done|].
    injection Hx as ->. simpl.
    pose proof (loop_body_initial _ _ _ Hev H4) as Hfirst.
    destruct (loop_body (events_of self) initial_frame x) as [fr1|[|k|]];
      simpl; [exfalso|done|exfalso|done].
    + tauto.
    + destruct Hfirst as (Hn & Hk & Hnone).
      destruct Hcase as [Hcase|[_ Hc]]; [tauto|].
      by apply (complete_lookup event k).
Qed.

Lemma run_TypeError_iff_witness :
  run (serving empty_domain) = Raise TypeError
  ∧ run (serving empty_subject) = Raise TypeError.
Proof.
  split.
  - apply (proj2 (run_TypeError_iff (serving empty_domain))).
    exists "org.openedx..course.created.v1", enrollment.
    split; [vm_compute; reflexivity|]. split; [vm_compute; reflexivity|].
    split; [unfold four_segments; vm_compute; lia|].
    left. by vm_compute.
  - apply (proj2 (run_TypeError_iff (serving empty_subject))).
    exists "org.openedx.learning..created.v1", enrollment.
    split; [vm_compute; reflexivity|]. split; [vm_compute; reflexivity|].
    split; [unfold four_segments; vm_compute; lia|].
    right. split; [by vm_compute|apply enrollment_complete].
Defined.

(** ** Splitting an identifier *)

Lemma split_nonempty sep s : split sep s ≠ [].
Proof.
  destruct s as [|c s]; simpl; [done|].
  destruct (Ascii.eqb c sep); [done|]. by destruct (split sep s).
Qed.

Lemma app_String (a : ascii) (s1 s2 : string) :
  String a s1 +:+ s2 = String a (s1 +:+ s2).
Proof. reflexivity. Qed.

Lemma split_segment sep seg rest :
  mentions sep seg = false →
  split sep (seg +:+ String sep rest) = seg :: split sep rest.
Proof.
  induction seg as [|a seg IH]; intros Hfree.
  - change ("" +:+ String sep rest) with (String sep rest). simpl.
    by rewrite Ascii.eqb_refl.
  - simpl in Hfree. apply orb_false_iff in Hfree as [Ha Hfree].
    rewrite app_String. simpl. rewrite Ha. by rewrite IH.
Qed.

Lemma split_last_segment sep seg :
  mentions sep seg = false → split sep seg = [seg].
Proof.
  induction seg as [|a seg IH]; intros Hfree; [done|].
  simpl in Hfree. apply orb_false_iff in Hfree as [Ha Hfree].
  simpl. rewrite Ha. by rewrite IH.
Qed.

Lemma split_join_segments sep segments :
  segments ≠ [] →
  Forall (λ s, mentions sep s = false) segments →
  split sep (join sep segments) = segments.
Proof.
  intros Hne Hfree. induction Hfree as [|s l Hs Hl IH]; [done|].
  destruct l as [|s2 l]; [by apply split_last_segment|].
  change (join sep (s :: s2 :: l))
    with (s +:+ String sep (join sep (s2 :: l))).
  rewrite split_segment by done. by rewrite IH.
Qed.

(** Splitting the joined segments gives the segments back, when there is at
    least one and none holds the separator. *)
Theorem split_join sep segments :
  segments ≠ [] →
  Forall (λ s, mentions sep s = false) segments →
  split sep (join sep segments) = segments.
Proof. apply split_join_segments. Qed.

Lemma split_join_witness :
  split "." (join "." ["org"; "openedx"; "learning"; "course"; "v1"])
  = ["org"; "openedx"; "learning"; "course"; "v1"].
Proof.
  apply split_join; [done|]. repeat constructor.
Defined.

(** Joining the segments of a string with the separator gives the string
    back, and no segment holds the separator. *)
Theorem join_split sep s :
  join sep (split sep s) = s
  ∧ Forall (λ seg, mentions sep seg = false) (split sep s).
Proof.
  induction s as [|c s [IHj IHf]]; [by repeat constructor|].
  simpl. destruct (Ascii.eqb c sep) eqn:Hc.
  - apply Ascii.eqb_eq in Hc as ->. split; [|by constructor].
    pose proof (split_nonempty sep s) as Hne.
    destruct (split sep s) as [|w ws]; [done|].
    change (join sep ("" :: w :: ws)) with (String sep (join sep (w :: ws))).
    by rewrite IHj.
  - pose proof (split_nonempty sep s) as Hne.
    destruct (split sep s) as [|w ws]; [done|].
    apply Forall_cons in IHf as [Hw Hws]. split.
    + rewrite <- IHj. by destruct ws.
    + constructor; [|done]. simpl. by rewrite Hc.
Qed.

(** The grouping key of an identifier written as dot-free segments joined by
    dots is its third and fourth segment. *)
Theorem grouping_key_of_join segments domain subject :
  Forall (λ s, mentions "." s = false) segments →
  segments !! 2%nat = Some domain →
  segments !! 3%nat = Some subject →
  four_segments (join "." segments)
  ∧ domain_of (join "." segments) = domain
  ∧ subject_of (join "." segments) = subject.
Proof.
  intros Hfree Hd Hs.
  unfold four_segments, domain_of, subject_of.
  rewrite split_join_segments; [|by destruct segments|done].
  rewrite Hd, Hs. split; [|done].
  apply lookup_lt_Some in Hs. lia.
Qed.

Lemma grouping_key_of_join_witness :
  domain_of (join "." ["org"; "openedx"; "learning"; "course"; "v1"])
  = "learning".
Proof.
  refine (proj1 (proj2 (grouping_key_of_join
            ["org"; "openedx"; "learning"; "course"; "v1"]
            "learning" "course" _ _ _))); [repeat constructor|done|done].
Defined.

(** ** Fields the directive does not read *)

(** A field other than the six the loop body reads has no effect on the
    section of the event. *)
Theorem event_section_ignores event_type event h k v :
  k ∉ fields_read →
  event_section event_type (<[k := v]> event) h
  = event_section event_type event h.
Proof.
  intros Hk.
  assert (Hother : ∀ k', k' ∈ fields_read → <[k := v]> event !! k' = event !! k').
  { intros k' Hk'. apply lookup_insert_ne. by intros ->. }
  unfold event_section, getitem, dict_get.
  rewrite (Hother ".. event_name:"), (Hother ".. event_data:"),
    (Hother ".. event_key_field:"), (Hother ".. event_description:"),
    (Hother "filename"), (Hother "line_number");
    [done|unfold fields_read, required_fields; in_list..].
Qed.

Lemma event_section_ignores_witness :
  event_section "org.openedx.learning.course.created.v1"
    (<[".. event_warning:" := PStr "deprecated"]> enrollment) []
  = event_section "org.openedx.learning.course.created.v1" enrollment [].
Proof.
  apply event_section_ignores.
  unfold fields_read, required_fields. intros Hin.
  repeat (apply elem_of_cons in Hin as [Hin|Hin]; [discriminate|]).
  by apply elem_of_nil in Hin.
Defined.

(** ** Identifiers of the event sections *)

(** When [run] returns, no two event sections of the returned tree have the
    same identifiers. *)
Theorem event_ids_distinct self out h :
  run self = Ok (out, h) →
  section_ids h <$> level2 h out
  = (λ et, Some [event_id et]) <$> sorted (events_of self)
  ∧ NoDup (section_ids h <$> level2 h out).
Proof.
  intros Hr.
  destruct (run_layout _ _ _ Hr) as (fr & g & Hm & <- & <- & _ & Hl & _).
  assert (Hids : section_ids (heap fr) <$> level2 (heap fr) (dom_addrs g)
                 = (λ et, Some [event_id et]) <$> sorted (events_of self)).
  { rewrite (level2_models _ _ _ Hm), <- Hl. unfold leaf_addrs.
    rewrite <- !list_fmap_compose.
    apply Forall_fmap_ext_1, Forall_forall. intros [a et] Hin. simpl.
    destruct (m_leaves _ _ _ Hm _ Hin) as (event & e & _ & He & Ha).
    simpl in He, Ha. unfold section_ids. rewrite Ha. simpl.
    by apply expected_leaf_title in He as [-> _]. }
  split; [done|]. rewrite Hids.
  apply NoDup_fmap_2; [|apply sorted_NoDup].
  intros x y [= Hxy]. exact Hxy.
Qed.

Lemma event_ids_distinct_witness :
  ∃ out h,
    run (serving split_domain) = Ok (out, h)
    ∧ NoDup (section_ids h <$> level2 h out).
Proof.
  eexists _, _. split; [vm_compute; reflexivity|].
  refine (proj2 (event_ids_distinct (serving split_domain) _ _ _)).
  vm_compute. reflexivity.
Defined.

(** ** The loop only appends *)

Lemma grows_refl h : grows h h.
Proof. intros a e Ha. by exists e. Qed.

Lemma grows_trans h1 h2 h3 : grows h1 h2 → grows h2 h3 → grows h1 h3.
Proof.
  intros H12 H23 a e Ha.
  destruct (H12 a e Ha) as (e2 & Ha2 & Hi2 & Hc2).
  destruct (H23 a e2 Ha2) as (e3 & Ha3 & Hi3 & Hc3).
  exists e3. split; [done|]. split; [congruence|]. by etrans.
Qed.

Lemma grows_alloc h e : grows h (h ++ [e]).
Proof.
  unfold grows, store. intros a e0 Ha. exists e0. split; [|done].
  rewrite lookup_old; [done|]. by apply lookup_lt_Some in Ha.
Qed.

Lemma grows_iadd target n h h' : iadd target n h = Ok h' → grows h h'.
Proof.
  destruct target as [t|]; [|done]. simpl. intros [= <-] a e Ha.
  unfold store, addr in *.
  destruct (decide (t = a)) as [->|Hne].
  - exists (append n e). rewrite list_lookup_alter_eq, Ha.
    split; [done|]. split; [done|]. by apply prefix_app_r.
  - exists e. by rewrite list_lookup_alter_ne.
Qed.

Lemma open_domain_grows domain fr fr' :
  open_domain domain fr = Ok fr' →
  grows (heap fr) (heap fr') ∧ yielded fr `prefix_of` yielded fr'.
Proof.
  unfold open_domain.
  destruct (decide (domain ≠ current_domain fr)).
  2:{ intros [= <-]. split; [apply grows_refl|done]. }
  simpl. intros [= <-]. simpl. split.
  - eapply grows_trans; [apply grows_alloc|].
    by apply (grows_iadd (Some (length (heap fr)))
                (domain_title domain)).
  - unfold yield_header. destruct (domain_header fr); [|done].
    by apply prefix_app_r.
Qed.

Lemma open_subject_grows subject fr fr' :
  open_subject subject fr = Ok fr' →
  grows (heap fr) (heap fr') ∧ yielded fr' = yielded fr.
Proof.
  unfold open_subject.
  destruct (decide (subject ≠ current_subject fr)).
  2:{ intros [= <-]. split; [apply grows_refl|done]. }
  simpl.
  destruct (iadd (domain_header fr) _ _) as [h'|] eqn:Hi; [|done].
  simpl. intros [= <-]. simpl. split; [|done].
  eapply grows_trans; [apply grows_alloc|].
  eapply grows_trans; [|by apply grows_iadd in Hi].
  by apply (grows_iadd (Some (length (heap fr))) (subject_title subject)).
Qed.

Lemma loop_body_grows events fr event_type fr' :
  loop_body events fr event_type = Ok fr' →
  grows (heap fr) (heap fr') ∧ yielded fr `prefix_of` yielded fr'.
Proof.
  unfold loop_body.
  destruct (open_groups event_type fr) as [fr2|] eqn:Hg; [|done].
  apply open_groups_Ok in Hg as (_ & fr1 & Hd & Hs).
  apply open_domain_grows in Hd as [Hd1 Hd2].
  apply open_subject_grows in Hs as [Hs1 Hs2].
  simpl. destruct (getitem events event_type) as [event|]; [|done].
  simpl.
  destruct (event_section event_type event (heap fr2)) as [[es h]|] eqn:Hes;
    [|done].
  apply event_section_Ok in Hes as (e & _ & -> & ->). simpl.
  destruct (iadd (subject_header fr2) _ _) as [h'|] eqn:Hi; [|done].
  simpl. intros [= <-]. simpl. split; [|by rewrite Hs2].
  eapply grows_trans; [done|]. eapply grows_trans; [done|].
  eapply grows_trans; [apply grows_alloc|]. by apply grows_iadd in Hi.
Qed.

(** The loop never removes a section, never changes the identifiers of one,
    never removes or reorders children, and never takes back a section it
    has yielded: sections are added, and children are appended. *)
Theorem loop_only_appends events l fr fr' :
  for_each (loop_body events) fr l = Ok fr' →
  grows (heap fr) (heap fr') ∧ yielded fr `prefix_of` yielded fr'.
Proof.
  revert fr. induction l as [|x l IH]; intros fr; simpl.
  - intros [= <-]. split; [apply grows_refl|done].
  - destruct (loop_body events fr x) as [fr1|] eqn:Hb; [|done]. simpl.
    intros Hl. apply loop_body_grows in Hb as [Hg1 Hy1].
    apply IH in Hl as [Hg2 Hy2].
    split; [by eapply grows_trans|by etrans].
Qed.

(** In [shared_subject], after the first event the store holds three
    sections; the second event adds two, and appends the new event section
    to the subject section built for the first. *)
Lemma loop_only_appends_witness :
  ∃ fr1 fr',
    loop_body shared_subject initial_frame
      "org.openedx.content.course.created.v1" = Ok fr1
    ∧ for_each (loop_body shared_subject) fr1
        ["org.openedx.learning.course.created.v1"] = Ok fr'
    ∧ length (heap fr1) = 3%nat
    ∧ subsections (heap fr1) 1 = [2]
    ∧ subsections (heap fr') 1 = [2; 4]
    ∧ grows (heap fr1) (heap fr')
    ∧ yielded fr1 `prefix_of` yielded fr'.
Proof.
  eexists _, _.
  split; [vm_compute; reflexivity|].
  split; [vm_compute; reflexivity|].
  split; [vm_compute; reflexivity|].
  split; [vm_compute; reflexivity|].
  split; [vm_compute; reflexivity|].
  apply (loop_only_appends shared_subject
           ["org.openedx.learning.course.created.v1"]).
  vm_compute. reflexivity.
Defined.

(** ** One iteration, on the layout *)

Lemma on_last_nil {A} (f : A → A) : on_last f [] = [].
Proof. done. Qed.

Lemma on_last_cons {A} (f : A → A) (a : A) (l : list A) :
  l ≠ [] → on_last f (a :: l) = a :: on_last f l.
Proof.
  destruct l as [|b l _] using rev_ind; [done|]. intros _.
  by rewrite app_comm_cons, !on_last_snoc.
Qed.

Lemma fmap_on_last {A B} (f : A → B) (h : A → A) (h' : B → B) (l : list A) :
  (∀ x, f (h x) = h' (f x)) → f <$> on_last h l = on_last h' (f <$> l).
Proof.
  intros Hc. destruct l as [|x l _] using rev_ind; [done|].
  rewrite on_last_snoc, !fmap_app. simpl. by rewrite on_last_snoc, Hc.
Qed.

Lemma loop_body_step events fr g event_type fr' :
  models events fr g →
  loop_body events fr event_type = Ok fr' →
  ∃ a1 a2 a3 g1 g2,
    g1 = (if decide (domain_of event_type ≠ current_domain fr)
          then Layout
                 (g_domains g ++ [GDomain a1 (domain_of event_type) []])
                 (g_subjects g)
          else g)
    ∧ g2 = (if decide (subject_of event_type ≠ current_subject fr)
            then g_open_subject a2 (subject_of event_type) g1
            else g1)
    ∧ models events fr' (g_attach a3 event_type g2)
    ∧ (subject_of event_type ≠ current_subject fr → g_domains g1 ≠ [])
    ∧ g_subjects g2 ≠ []
    ∧ current_domain fr' = domain_of event_type
    ∧ current_subject fr' = subject_of event_type.
Proof.
  intros Hm. unfold loop_body.
  destruct (open_groups event_type fr) as [fr2|] eqn:Hg; [|done].
  apply open_groups_Ok in Hg as (H4 & fr1 & Hd & Hs).
  destruct (open_domain_step _ _ _ _ _ Hm Hd)
    as (g1 & Hm1 & _ & _ & Hcd1 & Hcs1 & Hg1).
  destruct (open_subject_step _ _ _ _ _ Hm1 Hs)
    as (g2 & Hm2 & _ & _ & Hcd2 & Hcs2 & Hne2 & Hg2).
  simpl. unfold getitem.
  destruct (events !! event_type) as [event|] eqn:Hev; [|done].
  simpl.
  destruct (event_section event_type event (heap fr2)) as [[es h]|] eqn:Hes;
    [|done].
  apply event_section_Ok in Hes as (e & He & -> & ->).
  simpl.
  destruct (iadd (subject_header fr2) (ref (length (heap fr2)))
              (heap fr2 ++ [e])) as [h'|] eqn:Hi; [|done].
  simpl. intros [= <-].
  destruct (attach_step _ _ _ _ _ _ _ Hm2 Hev He Hi)
    as (g3 & Hm3 & _ & _ & Hne3 & Hg3).
  exists (length (heap fr)), (length (heap fr1)), (length (heap fr2)), g1, g2.
  rewrite Hcs1 in Hg2, Hne2. subst g3.
  split; [done|]. split; [done|]. split; [done|]. split; [done|].
  split; [done|]. simpl. split; congruence.
Qed.

Lemma subject_view_attach a event_type g :
  subject_view (g_attach a event_type g)
  = on_last (λ kr, (kr.1, kr.2 ++ [event_type])) (subject_view g).
Proof.
  unfold subject_view, g_attach. simpl. apply fmap_on_last.
  intros s. simpl. by rewrite fmap_app.
Qed.

Lemma subject_view_open a subject g :
  subject_view (g_open_subject a subject g)
  = subject_view g ++ [(subject, [])].
Proof. unfold subject_view, g_open_subject. simpl. by rewrite fmap_app. Qed.

(** ** Runs, one element at a time *)

Lemma runs_snoc key l x :
  runs key (l ++ [x])
  = if decide (key <$> last l = Some (key x))
    then on_last (λ kr, (kr.1, kr.2 ++ [x])) (runs key l)
    else runs key l ++ [(key x, [x])].
Proof.
  induction l as [|y l IH]; [done|].
  destruct l as [|z l].
  { simpl. destruct (decide (key y = key x)) as [Heq|Hne].
    - rewrite decide_True by (by rewrite Heq). by rewrite Heq.
    - rewrite decide_False by (by intros [= ?]). done. }
  change ((y :: z :: l) ++ [x]) with (y :: ((z :: l) ++ [x])).
  change (runs key (y :: ((z :: l) ++ [x])))
    with (match runs key ((z :: l) ++ [x]) with
          | (k, r) :: rs =>
              if decide (key y = k) then (k, y :: r) :: rs
              else (key y, [y]) :: (k, r) :: rs
          | [] => [(key y, [y])]
          end).
  change (runs key (y :: z :: l))
    with (match runs key (z :: l) with
          | (k, r) :: rs =>
              if decide (key y = k) then (k, y :: r) :: rs
              else (key y, [y]) :: (k, r) :: rs
          | [] => [(key y, [y])]
          end).
  rewrite IH. rewrite last_cons_cons.
  pose proof (runs_keys key z l) as Hk.
  destruct (runs key (z :: l)) as [|[k r] rs]; [done|].
  destruct (decide (key <$> last (z :: l) = Some (key x))) as [Hc|Hc].
  - destruct rs as [|kr rs].
    + simpl. unfold on_last at 1. simpl.
      destruct (decide (key y = k)); by unfold on_last.
    + rewrite (on_last_cons _ (k, r)) by done.
      destruct (decide (key y = k)).
      * by rewrite (on_last_cons _ (k, y :: r)).
      * rewrite (on_last_cons _ (key y, [y])) by done.
        by rewrite (on_last_cons _ (k, r)).
  - simpl. by destruct (decide (key y = k)).
Qed.

(** ** Subject sections follow the runs of the fourth segment *)

Lemma loop_body_subject_runs events done fr g x fr' :
  models events fr g →
  subject_view g = runs subject_of done →
  (subject_of <$> last done = Some (current_subject fr)
   ∨ (done = [] ∧ g_subjects g = [])) →
  loop_body events fr x = Ok fr' →
  ∃ g', models events fr' g'
        ∧ subject_view g' = runs subject_of (done ++ [x])
        ∧ current_subject fr' = subject_of x.
Proof.
  intros Hm Hv Hcur Hb.
  destruct (loop_body_step _ _ _ _ _ Hm Hb)
    as (a1 & a2 & a3 & g1 & g2 & Hg1 & Hg2 & Hm' & _ & Hne & _ & Hcs).
  exists (g_attach a3 x g2). split; [done|]. split; [|done].
  assert (Hs1 : g_subjects g1 = g_subjects g).
  { rewrite Hg1. by destruct (decide (domain_of x ≠ current_domain fr)). }
  assert (Hv1 : subject_view g1 = runs subject_of done).
  { unfold subject_view. by rewrite Hs1. }
  rewrite subject_view_attach, runs_snoc.
  destruct (decide (subject_of x ≠ current_subject fr)) as [Hnew|Hsame].
  - rewrite Hg2, subject_view_open, on_last_snoc, Hv1. simpl.
    rewrite decide_False; [done|].
    destruct Hcur as [Hcur|[-> _]]; [|done].
    rewrite Hcur. by intros [= ?].
  - apply dec_stable in Hsame. subst g2.
    destruct Hcur as [Hcur|[_ Hnil]]; [|by rewrite Hs1 in Hne].
    rewrite decide_True by (by rewrite Hcur, Hsame).
    by rewrite Hv1.
Qed.

Lemma for_each_subject_runs events l : ∀ done fr g fr',
  models events fr g →
  subject_view g = runs subject_of done →
  (subject_of <$> last done = Some (current_subject fr)
   ∨ (done = [] ∧ g_subjects g = [])) →
  for_each (loop_body events) fr l = Ok fr' →
  ∃ g', models events fr' g'
        ∧ subject_view g' = runs subject_of (done ++ l).
Proof.
  induction l as [|x l IH]; intros done fr g fr' Hm Hv Hcur; simpl.
  - intros [= <-]. exists g. by rewrite app_nil_r.
  - destruct (loop_body events fr x) as [fr1|] eqn:Hb; [|done]. simpl.
    intros Hl.
    destruct (loop_body_subject_runs _ _ _ _ _ _ Hm Hv Hcur Hb)
      as (g1 & Hm1 & Hv1 & Hcs1).
    destruct (IH (done ++ [x]) fr1 g1 fr' Hm1 Hv1) as (g' & Hm' & Hv');
      [|done|].
    + left. by rewrite last_snoc, Hcs1.
    + exists g'. split; [done|]. by rewrite Hv', <- app_assoc.
Qed.

Lemma run_models self out h :
  run self = Ok (out, h) →
  ∃ fr,
    for_each (loop_body (events_of self)) initial_frame
      (sorted (events_of self)) = Ok fr
    ∧ out = yield_header fr ∧ h = heap fr.
Proof.
  rewrite run_for_each.
  destruct (for_each _ _ _) as [fr|]; [|done].
  simpl. intros [= <- <-]. by exists fr.
Qed.

(** When [run] returns, the subject sections of the returned tree, in
    document order, are the maximal runs of consecutive event types with the
    same fourth segment in the sorted order, whatever their third segment:
    each section has the identifier of the segment, and the event sections
    under it are those of the events of its run, in order. *)
Theorem subject_sections_are_runs self out h :
  run self = Ok (out, h) →
  (λ s, (section_ids h s, section_title h <$> subsections h s))
    <$> level1 h out
  = (λ kr, (Some [subject_id kr.1], Some <$> kr.2))
      <$> runs subject_of (sorted (events_of self)).
Proof.
  intros (fr & Hl & -> & ->)%run_models.
  destruct (for_each_subject_runs _ _ [] _ _ _
              (models_initial (events_of self)) eq_refl
              (or_intror (conj eq_refl eq_refl)) Hl) as (g & Hm & Hv).
  simpl in Hv. rewrite <- Hv, (m_yielded _ _ _ Hm), (level1_models _ _ _ Hm).
  unfold sub_addrs, subject_view. rewrite <- !list_fmap_compose.
  apply Forall_fmap_ext_1, Forall_forall. intros s Hs. simpl.
  unfold section_ids, subsections.
  rewrite (m_subjects _ _ _ Hm s Hs). simpl. f_equal.
  rewrite refs_fmap_ref, <- !list_fmap_compose.
  apply Forall_fmap_ext_1, Forall_forall. intros [a et] Hin. simpl.
  assert (Hleaf : (a, et) ∈ leaves g).
  { unfold leaves. apply list_elem_of_bind. by exists s. }
  destruct (m_leaves _ _ _ Hm _ Hleaf) as (event & e & _ & He & Ha).
  simpl in He, Ha. unfold section_title. rewrite Ha. simpl.
  by apply expected_leaf_title in He as [_ [cs ->]].
Qed.

Lemma subject_sections_are_runs_witness :
  ∃ out h,
    run (serving shared_subject) = Ok (out, h)
    ∧ (λ s, (section_ids h s, section_title h <$> subsections h s))
        <$> level1 h out
      = [(Some ["openedxevent-subject-course"],
          [Some "org.openedx.content.course.created.v1";
           Some "org.openedx.learning.course.created.v1"])].
Proof.
  eexists _, _. split; [vm_compute; reflexivity|].
  rewrite (subject_sections_are_runs (serving shared_subject) _ _
             ltac:(vm_compute; reflexivity)).
  vm_compute. reflexivity.
Defined.

(** ** Events under their own domain and subject *)

Lemma parents_snoc D S d :
  parents (Layout (D ++ [d]) S)
  = parents (Layout D S) ++ replicate (length (gd_subs d)) (gd_name d).
Proof. unfold parents. simpl. by rewrite bind_app, bind_singleton. Qed.

Lemma list_snoc_inv {A} (l : list A) : l ≠ [] → ∃ l' x, l = l' ++ [x].
Proof.
  destruct l as [|x l _] using rev_ind; [done|]. intros _. by exists l, x.
Qed.

Lemma loop_body_grouped events fr g x fr' :
  models events fr g →
  well_grouped (current_domain fr) (current_subject fr) g →
  (g_subjects g ≠ [] → domain_of x ≠ current_domain fr →
   subject_of x ≠ current_subject fr) →
  loop_body events fr x = Ok fr' →
  ∃ g', models events fr' g'
        ∧ well_grouped (current_domain fr') (current_subject fr') g'
        ∧ g_subjects g' ≠ []
        ∧ current_domain fr' = domain_of x
        ∧ current_subject fr' = subject_of x.
Proof.
  intros Hm (HF & Hsubs & Hlast) Hbound Hb.
  destruct (loop_body_step _ _ _ _ _ Hm Hb)
    as (a1 & a2 & a3 & g1 & g2 & Hg1 & Hg2 & Hm' & Hne1 & Hne2 & Hcd & Hcs).
  exists (g_attach a3 x g2). split; [done|].
  rewrite Hcd, Hcs. destruct g as [D S]. simpl in *.
  assert (Hleaf : ∀ pn (s : gsubject),
            domain_of x = pn → subject_of x = gs_name s →
            Forall (λ l : addr * string,
                      domain_of l.2 = pn ∧ subject_of l.2 = gs_name s)
              (gs_leaves s) →
            Forall (λ l : addr * string,
                      domain_of l.2 = pn ∧ subject_of l.2 = gs_name s)
              (gs_leaves s ++ [(a3, x)])).
  { intros pn s Hpn Hs Hold. apply Forall_app. split; [done|].
    by repeat constructor. }
  destruct (decide (domain_of x ≠ current_domain fr)) as [Hdn|Hds];
    destruct (decide (subject_of x ≠ current_subject fr)) as [Hsn|Hss].
  - (* a new domain and a new subject *)
    subst g1 g2. unfold g_open_subject, g_attach. simpl.
    rewrite !on_last_snoc. simpl.
    split; [|split; [by destruct S|done]].
    unfold well_grouped. simpl. rewrite parents_snoc. simpl.
    split; [|split].
    + apply Forall2_app; [done|]. repeat constructor; done.
    + apply Forall_app. split; [done|]. by repeat constructor.
    + intros _. by rewrite !last_snoc.
  - (* a new domain under the old subject: ruled out *)
    subst g1 g2. simpl in *. apply dec_stable in Hss.
    by destruct (Hbound Hne2 Hdn).
  - (* a new subject in the old domain *)
    subst g1 g2. simpl in *. apply dec_stable in Hds.
    destruct (list_snoc_inv D (Hne1 Hsn)) as (D0 & gd & ->).
    apply Forall_app in Hsubs as [Hsubs0 Hgd].
    rewrite Forall_singleton in Hgd.
    rewrite parents_snoc in HF, Hlast.
    destruct (gd_subs gd) as [|sa subs] eqn:Hgdsubs; [done|].
    assert (HS : S ≠ []).
    { intros ->. apply Forall2_length in HF.
      rewrite length_app in HF. simpl in HF. lia. }
    destruct (Hlast HS) as [Hlp Hls].
    change (length (sa :: subs)) with (Datatypes.S (length subs)) in *.
    rewrite replicate_S_end, app_assoc, last_snoc in Hlp.
    injection Hlp as Hname.
    unfold g_open_subject, g_attach. simpl. rewrite !on_last_snoc. simpl.
    split; [|split; [by destruct S|done]].
    unfold well_grouped. simpl. rewrite parents_snoc. simpl.
    rewrite Hgdsubs.
    change (length ((sa :: subs) ++ [a2]))
      with (Datatypes.S (length (subs ++ [a2]))).
    rewrite length_app. simpl.
    replace (length subs + 1)%nat with (Datatypes.S (length subs)) by lia.
    change (gd_name gd :: replicate (Datatypes.S (length subs)) (gd_name gd))
      with (replicate (Datatypes.S (Datatypes.S (length subs))) (gd_name gd)).
    rewrite (replicate_S_end (Datatypes.S (length subs))), app_assoc.
    split; [|split].
    + apply Forall2_app; [done|]. repeat constructor; simpl; congruence.
    + apply Forall_app. split; [done|]. by repeat constructor.
    + intros _. rewrite !last_snoc. simpl. by rewrite Hname, Hds.
  - (* the old domain and the old subject *)
    subst g1 g2. simpl in *. apply dec_stable in Hds, Hss.
    destruct (list_snoc_inv S Hne2) as (S0 & gs & ->).
    destruct (Hlast Hne2) as [Hlp Hls].
    rewrite last_snoc in Hls. injection Hls as Hls.
    apply Forall2_app_inv_r in HF as (P1 & P2 & HF1 & HF2 & HP).
    apply Forall2_cons_inv_r in HF2 as (pn & P3 & Hpn & HF3 & ->).
    apply Forall2_nil_inv_r in HF3 as ->.
    rewrite HP, last_snoc in Hlp. injection Hlp as Hpn'.
    unfold g_attach. simpl. rewrite on_last_snoc.
    split; [|split; [by destruct S0|done]].
    unfold well_grouped. simpl.
    change (parents {| g_domains := D; g_subjects := S0 ++ [_] |})
      with (parents {| g_domains := D; g_subjects := S0 ++ [gs] |}).
    rewrite HP. split; [|split].
    + apply Forall2_app; [done|]. constructor; [|constructor]. simpl.
      apply Hleaf; [congruence|congruence|done].
    + done.
    + intros _. rewrite !last_snoc. simpl. by rewrite Hpn', Hds, Hls, Hss.
Qed.

Lemma well_grouped_initial :
  well_grouped (current_domain initial_frame) (current_subject initial_frame)
    (Layout [] []).
Proof. split; [constructor|]. split; [constructor|done]. Qed.

Lemma for_each_grouped events l : ∀ fr g fr',
  models events fr g →
  well_grouped (current_domain fr) (current_subject fr) g →
  (∀ x, head l = Some x → g_subjects g ≠ [] →
        domain_of x ≠ current_domain fr →
        subject_of x ≠ current_subject fr) →
  no_shared_boundary l →
  for_each (loop_body events) fr l = Ok fr' →
  ∃ g', models events fr' g'
        ∧ well_grouped (current_domain fr') (current_subject fr') g'.
Proof.
  induction l as [|x l IH]; intros fr g fr' Hm Hw Hhead Hb; simpl.
  - intros [= <-]. by exists g.
  - destruct (loop_body events fr x) as [fr1|] eqn:Hx; [|done]. simpl.
    intros Hl.
    destruct (loop_body_grouped _ _ _ _ _ Hm Hw (Hhead x eq_refl) Hx)
      as (g1 & Hm1 & Hw1 & Hne1 & Hcd1 & Hcs1).
    apply (IH fr1 g1 fr' Hm1 Hw1); [|destruct l; [done|apply Hb]|done].
    intros y Hy _. destruct l as [|y' l]; [done|].
    injection Hy as ->. destruct Hb as [Hxy _].
    rewrite Hcd1, Hcs1. intros Hd Hs. apply Hxy; congruence.
Qed.

Lemma Forall2_replicate_inv {A B} (Q : A → B → Prop) n x l :
  Forall2 Q (replicate n x) l → Forall (Q x) l.
Proof.
  revert n. induction l as [|y l IH]; intros n H; [constructor|].
  destruct n as [|n]; simpl in H; inversion H; subst.
  constructor; [done|]. by apply (IH n).
Qed.

(** The subjects listed under a domain are those the domain is the parent
    of. *)
Lemma parents_lookup (Q : string → gsubject → Prop) : ∀ D S,
  D ≫= gd_subs = gs_addr <$> S →
  Forall2 Q (D ≫= (λ d, replicate (length (gd_subs d)) (gd_name d))) S →
  ∀ d a, d ∈ D → a ∈ gd_subs d →
         ∃ s, s ∈ S ∧ gs_addr s = a ∧ Q (gd_name d) s.
Proof.
  induction D as [|d0 D IH]; intros S Hlink HF d a Hd Ha.
  { by apply elem_of_nil in Hd. }
  rewrite bind_cons in Hlink. rewrite bind_cons in HF.
  symmetry in Hlink. apply fmap_app_inv in Hlink as (S1 & S2 & H1 & H2 & ->).
  apply Forall2_app_inv in HF as [HF1 HF2].
  2:{ by rewrite length_replicate, H1, length_fmap. }
  apply elem_of_cons in Hd as [->|Hd].
  - rewrite H1 in Ha. apply list_elem_of_fmap in Ha as (s & -> & Hs).
    exists s. split; [apply elem_of_app; by left|]. split; [done|].
    apply Forall2_replicate_inv in HF1.
    by apply (proj1 (Forall_forall _ _) HF1).
  - destruct (IH S2 H2 HF2 d a Hd Ha) as (s & Hs & Hsa & HQ).
    exists s. split; [apply elem_of_app; by right|done].
Qed.

(** When [run] returns and, in the sorted order, the fourth segment changes
    wherever the third does, every event section lies under the subject
    section of its own fourth segment, which lies under the domain section
    of its own third segment, and no returned domain section is without a
    subject section. *)
Theorem grouping_correct self out h :
  run self = Ok (out, h) →
  no_shared_boundary (sorted (events_of self)) →
  (∀ d s l, d ∈ out → s ∈ subsections h d → l ∈ subsections h s →
     ∃ et, section_title h l = Some et
           ∧ section_ids h s = Some [subject_id (subject_of et)]
           ∧ section_ids h d = Some [domain_id (domain_of et)])
  ∧ (∀ d, d ∈ out → subsections h d ≠ []).
Proof.
  intros (fr & Hl & -> & ->)%run_models Hb.
  assert (Hfirst : ∀ x, head (sorted (events_of self)) = Some x →
            g_subjects (Layout [] []) ≠ [] →
            domain_of x ≠ current_domain initial_frame →
            subject_of x ≠ current_subject initial_frame) by done.
  destruct (for_each_grouped (events_of self) (sorted (events_of self))
              initial_frame (Layout [] []) fr
              (models_initial (events_of self)) well_grouped_initial
              Hfirst Hb Hl) as (g & Hm & HF & Hsubs & _).
  rewrite (m_yielded _ _ _ Hm). unfold dom_addrs. split.
  - intros d s l (gd & -> & Hgd)%list_elem_of_fmap.
    unfold subsections at 1. rewrite (m_domains _ _ _ Hm gd Hgd). simpl.
    rewrite refs_fmap_ref. intros Hs.
    destruct (parents_lookup _ _ _ (m_link _ _ _ Hm) HF gd s Hgd Hs)
      as (gs & Hgs & <- & Hleaves).
    unfold subsections. rewrite (m_subjects _ _ _ Hm gs Hgs). simpl.
    rewrite refs_fmap_ref. intros ([l' et] & -> & Hin)%list_elem_of_fmap.
    destruct (proj1 (Forall_forall _ _) Hleaves _ Hin) as [Hdn Hsn].
    simpl in Hdn, Hsn.
    assert (Hleaf : (l', et) ∈ leaves g).
    { unfold leaves. apply list_elem_of_bind. by exists gs. }
    destruct (m_leaves _ _ _ Hm _ Hleaf) as (event & e & _ & He & Ha).
    simpl in He, Ha. exists et. unfold section_title, section_ids. simpl.
    rewrite Ha, (m_subjects _ _ _ Hm gs Hgs), (m_domains _ _ _ Hm gd Hgd).
    simpl. apply expected_leaf_title in He as [_ [cs ->]].
    by rewrite Hdn, Hsn.
  - intros d (gd & -> & Hgd)%list_elem_of_fmap.
    unfold subsections. rewrite (m_domains _ _ _ Hm gd Hgd). simpl.
    rewrite refs_fmap_ref. by apply (proj1 (Forall_forall _ _) Hsubs).
Qed.

Lemma grouping_correct_witness :
  ∃ out h,
    run (serving two_domains) = Ok (out, h)
    ∧ ∀ d, d ∈ out → subsections h d ≠ [].
Proof.
  eexists _, _. split; [vm_compute; reflexivity|].
  refine (proj2 (grouping_correct (serving two_domains) _ _ _ _)).
  - vm_compute. reflexivity.
  - vm_compute. split; [|exact I]. intros _ H. discriminate H.
Defined.

(** ** How many sections *)

Lemma length_of_initial_segment (l : list nat) (n : nat) :
  NoDup l → (∀ a, (a < n)%nat ↔ a ∈ l) → length l = n.
Proof.
  intros Hnd Hin.
  assert (Hp : l ≡ₚ seq 0 n).
  { apply NoDup_Permutation; [done|apply NoDup_seq|].
    intros a. rewrite <- Hin, elem_of_seq. lia. }
  by rewrite Hp, length_seq.
Qed.

(** When [run] returns, the directive has built one section for every run
    of the third segment, one for every run of the fourth, and one for
    every event, and no other. *)
Theorem section_count self out h :
  run self = Ok (out, h) →
  length h
  = (length (runs domain_of (sorted (events_of self)))
     + length (runs subject_of (sorted (events_of self)))
     + length (sorted (events_of self)))%nat.
Proof.
  intros Hr.
  destruct (run_layout _ _ _ Hr) as (fr0 & g0 & Hm0 & Hh0 & Ho0 & Hn0 & Hl0 & _).
  destruct (run_models _ _ _ Hr) as (fr & Hl & -> & ->).
  destruct (for_each_subject_runs _ _ [] _ _ _
              (models_initial (events_of self)) eq_refl
              (or_intror (conj eq_refl eq_refl)) Hl) as (g & Hm & Hv).
  simpl in Hv.
  rewrite <- (length_of_initial_segment (all_addrs g) (length (heap fr))
                (m_nodup _ _ _ Hm) (m_alloc _ _ _ Hm)).
  unfold all_addrs. rewrite !length_app, Nat.add_assoc. f_equal; [f_equal|].
  - rewrite <- (m_yielded _ _ _ Hm), <- Ho0. unfold dom_addrs.
    rewrite length_fmap, <- (length_fmap gd_name), Hn0.
    by rewrite length_fmap.
  - unfold sub_addrs. rewrite length_fmap, <- Hv. unfold subject_view.
    by rewrite length_fmap.
  - rewrite <- (level2_models _ _ _ Hm), <- (m_yielded _ _ _ Hm).
    rewrite <- Ho0, <- Hh0, (level2_models _ _ _ Hm0). unfold leaf_addrs.
    by rewrite length_fmap, <- (length_fmap snd), Hl0.
Qed.

Lemma section_count_witness :
  ∃ out h,
    run (serving split_domain) = Ok (out, h) ∧ length h = 7%nat.
Proof.
  eexists _, _. split; [vm_compute; reflexivity|].
  rewrite (section_count (serving split_domain) _ _
             ltac:(vm_compute; reflexivity)).
  vm_compute. reflexivity.
Defined.

(** ** Titles of the group sections *)

(** When [run] returns, the returned sections are titled
    [Architectural subdomain: <domain>] and the sections below them
    [Subject: <subject>], for the runs of the third and of the fourth
    segment in the sorted order. *)
Theorem group_titles self out h :
  run self = Ok (out, h) →
  section_title h <$> out
  = (λ kr, Some ("Architectural subdomain: " +:+ kr.1))
      <$> runs domain_of (sorted (events_of self))
  ∧ section_title h <$> level1 h out
    = (λ kr, Some ("Subject: " +:+ kr.1))
        <$> runs subject_of (sorted (events_of self)).
Proof.
  intros Hr. split.
  - destruct (run_layout _ _ _ Hr) as (fr & g & Hm & <- & <- & Hn & _ & _).
    transitivity ((λ k, Some ("Architectural subdomain: " +:+ k))
                    <$> (gd_name <$> g_domains g)).
    + unfold dom_addrs. rewrite <- !list_fmap_compose.
      apply Forall_fmap_ext_1, Forall_forall. intros d Hd. simpl.
      unfold section_title. by rewrite (m_domains _ _ _ Hm d Hd).
    + rewrite Hn. by rewrite <- list_fmap_compose.
  - destruct (run_models _ _ _ Hr) as (fr & Hl & -> & ->).
    destruct (for_each_subject_runs _ _ [] _ _ _
                (models_initial (events_of self)) eq_refl
                (or_intror (conj eq_refl eq_refl)) Hl) as (g & Hm & Hv).
    simpl in Hv.
    rewrite <- Hv, (m_yielded _ _ _ Hm), (level1_models _ _ _ Hm).
    unfold sub_addrs, subject_view. rewrite <- !list_fmap_compose.
    apply Forall_fmap_ext_1, Forall_forall. intros s Hs. simpl.
    unfold section_title. by rewrite (m_subjects _ _ _ Hm s Hs).
Qed.

Lemma group_titles_witness :
  ∃ out h,
    run (serving two_domains) = Ok (out, h)
    ∧ section_title h <$> out
      = [Some "Architectural subdomain: content";
         Some "Architectural subdomain: learning"].
Proof.
  eexists _, _. split; [vm_compute; reflexivity|].
  rewrite (proj1 (group_titles (serving two_domains) _ _
                    ltac:(vm_compute; reflexivity))).
  vm_compute. reflexivity.
Defined.

(** ** Which field a [KeyError] names *)

(** The section of an event raises [KeyError] for the first required field,
    in the order name, data, description, file name, line number, that the
    record lacks. *)
Theorem first_missing_field event_type event h k before after :
  required_fields = before ++ k :: after →
  Forall (λ k', is_Some (event !! k')) before →
  event !! k = None →
  event_section event_type event h = Raise (KeyError k).
Proof.
  intros Hsplit Hbefore Hnone.
  unfold required_fields, EVENT_NAME, EVENT_DATA, EVENT_DESCRIPTION in Hsplit.
  unfold event_section, getitem, dict_get.
  destruct (event !! ".. event_name:") as [v0|] eqn:H0;
    destruct (event !! ".. event_data:") as [v1|] eqn:H1;
    destruct (event !! ".. event_description:") as [v2|] eqn:H2;
    destruct (event !! "filename") as [v3|] eqn:H3;
    destruct (event !! "line_number") as [v4|] eqn:H4; simpl.
  all: destruct before as [|b0 [|b1 [|b2 [|b3 [|b4 before]]]]];
    simplify_eq/=; try (by destruct before).
  all: repeat match goal with
         | H : Forall _ (_ :: _) |- _ => apply Forall_cons in H as [[? ?] H]
         end; try congruence.
  all: by destruct (truthy _).
Qed.

Lemma first_missing_field_witness :
  event_section "org.openedx.learning.course.created.v1"
    (delete "line_number" (delete ".. event_data:" enrollment)) []
  = Raise (KeyError ".. event_data:").
Proof.
  apply (first_missing_field _ _ _ _ [EVENT_NAME]
           [EVENT_DESCRIPTION; "filename"; "line_number"]); [done| |done].
  repeat constructor. vm_compute. by eexists.
Defined.

(** ** A short identifier comes first *)

(** When the smallest identifier has fewer than four segments, [run] raises
    [IndexError], whatever the records hold. *)
Theorem run_IndexError_first self x :
  head (sorted (events_of self)) = Some x →
  ¬ four_segments x →
  run self = Raise IndexError.
Proof.
  intros Hx H4. rewrite run_for_each.
  destruct (sorted (events_of self)) as [|y l]; [done|].
  injection Hx as ->. simpl. by rewrite (loop_body_short _ _ _ H4).
Qed.

Lemma run_IndexError_first_witness :
  run (serving short_identifier) = Raise IndexError.
Proof.
  apply (run_IndexError_first _ "org.openedx.learning"); [done|].
  unfold four_segments. vm_compute. lia.
Defined.
